(** * meta-dm-bot: webhook normalisation, delivery client and delivery queue

    A shallow embedding of [webhookController.ts], [metaService.ts] and
    [metaProcessor.ts], followed by the properties of the specification
    that concern them.

    The webhook handler receives whatever JSON the HTTP layer parsed, so
    its input is modelled as an untyped JavaScript value with the
    language's own rules for truthiness, property access, optional
    chaining and the [in] operator.  The outbound side is typed by the
    TypeScript interfaces and is modelled with records. *)

From Stdlib Require Import List String Ascii Bool ZArith Lia.
Import ListNotations.
Open Scope string_scope.
Open Scope list_scope.
Set Warnings "-register-all".

(* ===================================================================== *)
(** * JavaScript values as the handler sees them                          *)
(* ===================================================================== *)

Module JS.

(** A parsed JSON document, plus [undefined], which property reads
    produce.  Numbers are carried as integers: the handler never
    computes with a number, it only tests it for truthiness. *)
Inductive value : Type :=
| VUndef
| VNull
| VBool (b : bool)
| VNum (n : Z)
| VStr (s : string)
| VArr (items : list value)
| VObj (fields : list (string * value)).

(** Error objects: a [TypeError] raised by the language or an [Error]
    built by the code, identified here by its message. *)
Inductive error : Type :=
| TypeError (msg : string)
| Error (msg : string).

Definition error_message (e : error) : string :=
  match e with TypeError m => m | Error m => m end.

(** Completion of an evaluation: a value or a throw. *)
Inductive outcome (A : Type) : Type :=
| Normal (a : A)
| Throw (e : error).
Arguments Normal {A} a.
Arguments Throw {A} e.

(** [ToBoolean]. *)
Definition truthy (v : value) : bool :=
  match v with
  | VUndef | VNull => false
  | VBool b => b
  | VNum n => negb (n =? 0)%Z
  | VStr s => negb (s =? "")
  | VArr _ | VObj _ => true
  end.

Definition nullish (v : value) : bool :=
  match v with VUndef | VNull => true | _ => false end.

(** Own property of an object built by [JSON.parse]: when a key is
    repeated the last occurrence wins. *)
Fixpoint own (k : string) (fields : list (string * value)) : option value :=
  match fields with
  | [] => None
  | (k', v) :: rest =>
      match own k rest with
      | Some w => Some w
      | None => if k' =? k then Some v else None
      end
  end.

(** [v.k] for a value that is neither [null] nor [undefined], at the
    identifier names the code reads.  Arrays and strings answer
    [length]; none of the other names exists on a prototype. *)
Definition read (v : value) (k : string) : value :=
  match v with
  | VObj fields => match own k fields with Some w => w | None => VUndef end
  | VArr items => if k =? "length" then VNum (Z.of_nat (List.length items)) else VUndef
  | VStr s => if k =? "length" then VNum (Z.of_nat (String.length s)) else VUndef
  | _ => VUndef
  end.

(** [v.k]: a [TypeError] on [null] and [undefined]. *)
Definition dot (v : value) (k : string) : outcome value :=
  if nullish v
  then Throw (TypeError ("Cannot read properties of null or undefined (reading '" ++ k ++ "')")%string)
  else Normal (read v k).

(** [v?.k]. *)
Definition opt (v : value) (k : string) : value :=
  if nullish v then VUndef else read v k.

(** [v[0]] on a value that is neither [null] nor [undefined]. *)
Definition first (v : value) : value :=
  match v with
  | VArr items => match items with x :: _ => x | [] => VUndef end
  | VStr s => match s with String c _ => VStr (String c "") | EmptyString => VUndef end
  | VObj fields => match own "0" fields with Some w => w | None => VUndef end
  | _ => VUndef
  end.

(** [v[0]]. *)
Definition idx0 (v : value) : outcome value :=
  if nullish v
  then Throw (TypeError "Cannot read properties of null or undefined (reading '0')")
  else Normal (first v).

(** [v?.[0]]. *)
Definition opt_idx0 (v : value) : value :=
  if nullish v then VUndef else first v.

(** ['k' in v], at a name that is not an array index or [length]:
    only objects can answer; a primitive on the right is a [TypeError]. *)
Definition has (k : string) (v : value) : outcome bool :=
  match v with
  | VObj fields => Normal (match own k fields with Some _ => true | None => false end)
  | VArr _ => Normal false
  | _ => Throw (TypeError ("Cannot use 'in' operator to search for '" ++ k ++ "'")%string)
  end.

(** [a || b]. *)
Definition or (a b : value) : value := if truthy a then a else b.

(** [v.length === 0]. *)
Definition length_is_zero (v : value) : bool :=
  match read v "length" with
  | VNum n => (n =? 0)%Z
  | _ => false
  end.

Fixpoint chars (s : string) : list value :=
  match s with
  | EmptyString => []
  | String c rest => VStr (String c "") :: chars rest
  end.

(** The elements [for (const x of v)] visits: arrays and strings are
    iterable, anything else is a [TypeError]. *)
Definition iterate (v : value) : outcome (list value) :=
  match v with
  | VArr items => Normal items
  | VStr s => Normal (chars s)
  | _ => Throw (TypeError "value is not iterable")
  end.

(** Whether [v.slice(0, 50)] can be called: strings and arrays carry a
    [slice] method; on any other value that is neither [null] nor
    [undefined] the call is a [TypeError] (a JSON object may hold a
    field named [slice], but never a function). *)
Definition has_slice (v : value) : bool :=
  match v with
  | VStr _ | VArr _ => true
  | _ => false
  end.

End JS.

(* ===================================================================== *)
(** * webhookController.ts                                                *)
(* ===================================================================== *)

Module Webhook.
Import JS.

Inductive level : Type := Info | Warn | Err.

(** The third argument of the message handler. *)
Inductive platform : Type := messenger | instagram.

(** What the controller does to the outside world, in program order. *)
Inductive effect : Type :=
| Log (lvl : level) (msg : string)
| SendStatus (code : nat)
| Call (psid text : value) (p : platform).

(** One invocation of the caller's [messageHandler]. *)
Record event : Type := mkEvent
  { recipientId : value;
    text : value;
    on : platform }.

Fixpoint calls (w : list effect) : list event :=
  match w with
  | [] => []
  | Call p t pf :: rest => mkEvent p t pf :: calls rest
  | _ :: rest => calls rest
  end.

Fixpoint logs (w : list effect) : list (level * string) :=
  match w with
  | [] => []
  | Log l m :: rest => (l, m) :: logs rest
  | _ :: rest => logs rest
  end.

(** ** Effects and exceptions *)

(** What the handler's [try] block can be left with: an error object
    raised by the language or the code, or whatever the caller's
    [messageHandler] rejected with, which can be any value, [null] and
    [undefined] included. *)
Inductive thrown : Type :=
| Raised (e : error)
| Rejection (reason : value).

(** Completion of a statement of the controller. *)
Inductive completion (A : Type) : Type :=
| Done (a : A)
| Abrupt (x : thrown).
Arguments Done {A} a.
Arguments Abrupt {A} x.

(** A computation yields the effects it performed and how it completed;
    a throw keeps the effects performed before it. *)
Definition M (A : Type) : Type := (list effect * completion A)%type.

Definition ret {A} (a : A) : M A := ([], Done a).

Definition bind {A B} (m : M A) (k : A -> M B) : M B :=
  match m with
  | (w, Done a) => let (w', r) := k a in (w ++ w', r)
  | (w, Abrupt x) => (w, Abrupt x)
  end.

Definition emit (e : effect) : M unit := ([e], Done tt).

(** An evaluation of the language: what it throws is an error object. *)
Definition lift {A} (o : outcome A) : M A :=
  match o with
  | Normal a => ([], Done a)
  | Throw e => ([], Abrupt (Raised e))
  end.

(** [try { m } catch (e) { h e }]. *)
Definition try_catch {A} (m : M A) (h : thrown -> M A) : M A :=
  match m with
  | (w, Abrupt x) => let (w', r) := h x in (w ++ w', r)
  | (w, Done a) => (w, Done a)
  end.

Notation "x <- m ;; k" := (bind m (fun x => k))
  (at level 61, m at next level, right associativity).
Notation "m ;; k" := (bind m (fun _ => k))
  (at level 61, right associativity).

(** ** verifyWebhook *)

(** [process.env.VERIFY_TOKEN || 'your-verify-token']. *)
Definition VERIFY_TOKEN (env : option string) : string :=
  match env with
  | Some s => if s =? "" then "your-verify-token" else s
  | None => "your-verify-token"
  end.

(** [v === s] for a string literal or constant [s]. *)
Definition strict_eq_str (v : value) (s : string) : bool :=
  match v with
  | VStr s' => s' =? s
  | _ => false
  end.

(** What was handed to [res.status(..).type(..).send(..)]. *)
Record response : Type := mkResponse
  { status : nat;
    content_type : string;
    sent : value }.

(** [req.query] is an object; its three [hub.*] properties are read by
    destructuring. *)
Definition verifyWebhook (env : option string) (query : list (string * value))
  : list effect * response :=
  let mode := read (VObj query) "hub.mode" in
  let token := read (VObj query) "hub.verify_token" in
  let challenge := read (VObj query) "hub.challenge" in
  if strict_eq_str mode "subscribe" && strict_eq_str token (VERIFY_TOKEN env)
  then ([Log Info "Webhook verification attempt"; Log Info "Webhook verified successfully"],
        mkResponse 200 "text/plain" challenge)
  else ([Log Info "Webhook verification attempt"; Log Warn "Webhook verification failed"],
        mkResponse 403 "text/plain" (VStr "Forbidden")).

(** ** receiveWebhook *)

(** [error.k], evaluated while building the log record of the [catch]
    block: an error object answers; on any other value it is a plain
    property read, a [TypeError] on [null] and [undefined].  What is
    read is only logged. *)
Definition read_for_log (error : thrown) (k : string) : outcome unit :=
  match error with
  | Raised _ => Normal tt
  | Rejection reason =>
      match dot reason k with
      | Normal _ => Normal tt
      | Throw e => Throw e
      end
  end.

Section Receive.

(** The caller's handler: how its promise settles for given arguments. *)
Variable messageHandler : value -> value -> platform -> completion unit.

(** [await messageHandler(psid, text, platform)]. *)
Definition call_handler (psid txt : value) (p : platform) : M unit :=
  emit (Call psid txt p) ;; ([], messageHandler psid txt p).

(** [text.slice(0, 50)], evaluated while building the log record. *)
Definition slice_preview (txt : value) : M unit :=
  if has_slice txt then ret tt else lift (Throw (TypeError "text.slice is not a function")).

(** ['k' in entry && entry.k], as a condition. *)
Definition in_and_truthy (k : string) (entry : value) : M bool :=
  present <- lift (has k entry) ;;
  if (present : bool)
  then v <- lift (dot entry k) ;; ret (truthy v)
  else ret false.

(** Lines 69-84: the Messenger format. *)
Definition handle_messenger (entry : value) : M unit :=
  c <- in_and_truthy "messaging" entry ;;
  if (c : bool) then
    ms <- lift (dot entry "messaging") ;;
    messaging <- lift (idx0 ms) ;;
    if truthy (opt messaging "message") && truthy (opt (opt messaging "sender") "id") then
      sender <- lift (dot messaging "sender") ;;
      psid <- lift (dot sender "id") ;;
      message <- lift (dot messaging "message") ;;
      let txt := or (opt message "text") (VStr "") in
      slice_preview txt ;;
      emit (Log Info "Messenger message received") ;;
      call_handler psid txt messenger
    else ret tt
  else ret tt.

(** Line 93: [change?.messages?.[0] || (change?.from?.id ? change : null)]. *)
Definition igMessage_of (change : value) : value :=
  or (opt_idx0 (opt change "messages"))
     (if truthy (opt (opt change "from") "id") then change else VNull).

(** Lines 87-109: the Instagram format. *)
Definition handle_instagram (entry : value) : M unit :=
  c <- in_and_truthy "changes" entry ;;
  if (c : bool) then
    cs <- lift (dot entry "changes") ;;
    c0 <- lift (idx0 cs) ;;
    let change := opt c0 "value" in
    let igMessage := igMessage_of change in
    if truthy (opt (opt igMessage "from") "id") then
      from <- lift (dot igMessage "from") ;;
      psid <- lift (dot from "id") ;;
      t1 <- lift (dot igMessage "text") ;;
      m <- lift (dot igMessage "message") ;;
      let txt := or (or t1 (opt m "text")) (VStr "") in
      slice_preview txt ;;
      _ <- lift (dot from "username") ;;
      emit (Log Info "Instagram message received") ;;
      call_handler psid txt instagram
    else ret tt
  else ret tt.

(** The body of the [for] loop: two independent [if] statements. *)
Definition process_entry (entry : value) : M unit :=
  handle_messenger entry ;; handle_instagram entry.

(** [for (const entry of ...)]: a throw leaves the loop. *)
Fixpoint for_each (entries : list value) : M unit :=
  match entries with
  | [] => ret tt
  | e :: rest => process_entry e ;; for_each rest
  end.

(** Lines 111-116: the [catch] block builds the log record from
    [error.message] and [error.stack] before it logs. *)
Definition catch_block (error : thrown) : M unit :=
  lift (read_for_log error "message") ;;
  lift (read_for_log error "stack") ;;
  emit (Log Err "Webhook processing error").

(** The handler, from [req.body]. *)
Definition receiveWebhook (body : value) : M unit :=
  emit (SendStatus 200) ;;
  try_catch
    (entry <- lift (dot body "entry") ;;
     emit (Log Info "Webhook received") ;;
     if negb (truthy entry) || length_is_zero entry
     then emit (Log Warn "No entries in webhook payload")
     else
       es <- lift (iterate entry) ;;
       for_each es)
    catch_block.

(** The events a payload is normalised to: the handler invocations of
    [receiveWebhook], in order. *)
Definition normalize (body : value) : list event :=
  calls (fst (receiveWebhook body)).

(** The events one entry contributes. *)
Definition entry_events (entry : value) : list event :=
  calls (fst (process_entry entry)).

End Receive.

(** ** Reading what the controller did *)

(** The status codes sent, in order. *)
Fixpoint statuses (w : list effect) : list nat :=
  match w with
  | [] => []
  | SendStatus c :: rest => c :: statuses rest
  | _ :: rest => statuses rest
  end.

(** Whether a statement completed without a throw. *)
Definition completes {A : Type} (c : completion A) : bool :=
  match c with
  | Done _ => true
  | Abrupt _ => false
  end.

(** Whether a statement was left with [null] or [undefined] as the
    thrown value: a promise rejected with no reason. *)
Definition rejects_with_nothing {A : Type} (c : completion A) : bool :=
  match c with
  | Abrupt (Rejection reason) => nullish reason
  | _ => false
  end.

(** A value on which the [in] operator throws: anything but an object
    or an array. *)
Definition primitive (v : value) : bool :=
  match v with
  | VObj _ | VArr _ => false
  | _ => true
  end.

(** A field that is not there, is [null], or is an empty array. *)
Definition missing_or_empty (v : value) : bool :=
  match v with
  | VUndef | VNull | VArr [] => true
  | _ => false
  end.

(** ** Payload shapes of [types.ts] *)

(** A handler whose promise resolves whatever it is given. *)
Definition resolves (psid txt : value) (p : platform) : completion unit := Done tt.

(** A [WebhookPayload] with the given entries. *)
Definition payload_of (entries : list value) : value :=
  VObj [("object", VStr "page"); ("entry", VArr entries)].

(** A [MessengerWebhookEntry] with the given [messaging] elements. *)
Definition messaging_entry (ms : list value) : value :=
  VObj [("id", VStr "page-1"); ("time", VNum 0); ("messaging", VArr ms)].

(** A [MessengerMessage]: [sender.id] and the [message] object. *)
Definition messenger_message (sender_id message : value) : value :=
  VObj [("sender", VObj [("id", sender_id)]);
        ("recipient", VObj [("id", VStr "page-1")]);
        ("message", message)].

(** An [InstagramWebhookEntry] whose first change has the given [value]. *)
Definition change_entry (v : value) : value :=
  VObj [("id", VStr "ig-1"); ("time", VNum 0);
        ("changes", VArr [VObj [("field", VStr "messages"); ("value", v)]])].

(** A change value that lists its messages. *)
Definition in_messages (ms : list value) : value :=
  VObj [("messages", VArr ms)].

(** An Instagram message: [from.id] and [text]. *)
Definition ig_message (from_id txt : value) : value :=
  VObj [("from", VObj [("id", from_id)]); ("text", txt)].

End Webhook.

(* ===================================================================== *)
(** * metaService.ts                                                      *)
(* ===================================================================== *)

Module MetaService.
Import JS.

Record MetaMessageResponse : Type := mkResponseData
  { recipient_id : string;
    message_id : string }.

Record MetaSendMessageParams : Type := mkParams
  { psid : string;
    text : string;
    accessToken : string;
    instagramAccountId : option string }.

Definition baseUrl : string := "https://graph.facebook.com/v22.0".
Definition instagramBaseUrl : string := "https://graph.instagram.com/v22.0".

(** Truthiness of a [string | undefined]: defined and not empty. *)
Definition present (o : option string) : bool :=
  match o with
  | Some s => negb (s =? "")
  | None => false
  end.

(** The arguments of [axios.post]. *)
Record request : Type := mkRequest
  { url : string;
    payload : value;
    headers : list (string * string);
    timeout : Z }.

(** Lines 49-51. *)
Definition endpoint (account : option string) : string :=
  match account with
  | Some id =>
      if present account
      then (instagramBaseUrl ++ "/" ++ id ++ "/messages")%string
      else (baseUrl ++ "/me/messages")%string
  | None => (baseUrl ++ "/me/messages")%string
  end.

(** Lines 53-64: the one request [sendMessage] issues. *)
Definition sendMessage_request (params : MetaSendMessageParams) : request :=
  {| url := endpoint (instagramAccountId params);
     payload := VObj [("recipient", VObj [("id", VStr (psid params))]);
                      ("message", VObj [("text", VStr (text params))])];
     headers := [("Authorization", ("Bearer " ++ accessToken params)%string);
                 ("Content-Type", "application/json")];
     timeout := 15000 |}.

(** How the request ends: the provider's data, or an error with the
    provider's message (when a response carried one) and its own. *)
Inductive net_result : Type :=
| Delivered (data : MetaMessageResponse)
| Failed (provider_message : option string) (message : string).

(** [error?.response?.data?.error?.message || error.message]. *)
Definition failure_text (provider_message : option string) (message : string) : string :=
  match provider_message with
  | Some m => if present provider_message then m else message
  | None => message
  end.

(** Lines 66-80: [sendMessage] from its [await] on; the logged level and
    message, and the completion. *)
Definition sendMessage_settle (r : net_result)
  : list (Webhook.level * string) * outcome MetaMessageResponse :=
  match r with
  | Delivered data => ([(Webhook.Info, "Meta message sent successfully")], Normal data)
  | Failed pm m =>
      ([(Webhook.Err, "Meta send message failed")],
       Throw (Error ("Failed to send Meta message: " ++ failure_text pm m)%string))
  end.

(** ** The Graph API helpers *)

(** The arguments of [axios.get], or of an [axios.post] that carries
    query parameters. *)
Record graph_request : Type := mkGraphRequest
  { graph_url : string;
    graph_body : value;
    graph_params : list (string * string);
    graph_timeout : Z }.

(** How such a request ends for the caller's [await]: [response.data],
    or a rejection. *)
Definition graph_result : Type := outcome value.

(** Lines 92-99. *)
Definition getPageInfo_request (pageId token : string) : graph_request :=
  {| graph_url := (baseUrl ++ "/" ++ pageId)%string;
     graph_body := VUndef;
     graph_params := [("access_token", token); ("fields", "name,id,access_token")];
     graph_timeout := 10000 |}.

(** Lines 101-108. *)
Definition getPageInfo_settle (r : graph_result)
  : list (Webhook.level * string) * outcome value :=
  match r with
  | Normal data => ([], Normal data)
  | Throw _ =>
      ([(Webhook.Err, "Failed to get page info")],
       Throw (Error "Failed to retrieve page information"))
  end.

(** Lines 121-131. *)
Definition subscribeToWebhook_request (pageId token : string) : graph_request :=
  {| graph_url := (baseUrl ++ "/" ++ pageId ++ "/subscribed_apps")%string;
     graph_body :=
       VObj [("subscribed_fields",
              VArr [VStr "messages"; VStr "messaging_postbacks"; VStr "message_echoes"])];
     graph_params := [("access_token", token)];
     graph_timeout := 10000 |}.

(** Lines 133-141. *)
Definition subscribeToWebhook_settle (r : graph_result)
  : list (Webhook.level * string) * outcome value :=
  match r with
  | Normal data => ([(Webhook.Info, "Subscribed to page webhook")], Normal data)
  | Throw _ =>
      ([(Webhook.Err, "Failed to subscribe to webhook")],
       Throw (Error "Failed to subscribe to webhook"))
  end.

(** Lines 154-161. *)
Definition getInstagramAccountId_request (pageId token : string) : graph_request :=
  {| graph_url := (baseUrl ++ "/" ++ pageId)%string;
     graph_body := VUndef;
     graph_params := [("access_token", token); ("fields", "instagram_business_account")];
     graph_timeout := 10000 |}.

(** Line 163: [response.data.instagram_business_account?.id || null]. *)
Definition account_id_of (data : value) : outcome value :=
  match dot data "instagram_business_account" with
  | Normal account => Normal (or (opt account "id") VNull)
  | Throw e => Throw e
  end.

(** Lines 163-170: whatever is thrown inside the [try], by the request
    or by reading its answer, is logged and answered with [null]. *)
Definition getInstagramAccountId_settle (r : graph_result)
  : list (Webhook.level * string) * outcome value :=
  match r with
  | Normal data =>
      match account_id_of data with
      | Normal id => ([], Normal id)
      | Throw _ => ([(Webhook.Err, "Failed to get Instagram account ID")], Normal VNull)
      end
  | Throw _ => ([(Webhook.Err, "Failed to get Instagram account ID")], Normal VNull)
  end.

End MetaService.

(* ===================================================================== *)
(** * metaProcessor.ts                                                    *)
(* ===================================================================== *)

Module Processor.
Import JS MetaService.

Record MetaApiJobData : Type := mkJob
  { merchantId : option string;
    job_psid : string;
    job_text : string;
    dmLogId : option string;
    job_instagramAccountId : option string }.

(** What [processMetaMessage] resolves to. *)
Record job_result : Type := mkResult
  { success : bool;
    messageId : string }.

(** Observable steps of the queue, in program order. *)
Inductive obs : Type :=
| Enqueued (j : MetaApiJobData)
| Invoked (j : MetaApiJobData)
| Posted (r : request)
| Settled (j : MetaApiJobData) (ok : bool)
| Logged (lvl : Webhook.level) (msg : string)
| TimerSet (ms : Z)
| TimerFired.

(** The promise [processMetaMessage] returns, as the awaiting loop holds
    it: already rejected, or waiting for the request. *)
Inductive promise : Type :=
| Rejected (e : error)
| AwaitingPost (r : request).

(** A suspended activation of [processQueue]. *)
Inductive cont : Type :=
| AwaitingProcess (j : MetaApiJobData) (p : promise)
| AwaitingTimer.

(** The fields of the class. *)
Record SimpleMessageQueue : Type := mkQueue
  { queue : list MetaApiJobData;
    processing : bool }.

Section WithToken.

(** [process.env.META_ACCESS_TOKEN]. *)
Variable META_ACCESS_TOKEN : option string.

Definition params_of (token : string) (j : MetaApiJobData) : MetaSendMessageParams :=
  {| psid := job_psid j;
     text := job_text j;
     accessToken := token;
     instagramAccountId := job_instagramAccountId j |}.

(** Lines 18-42: [processMetaMessage] up to its [await].  Without a
    token the [throw] is caught, logged and rethrown before anything is
    sent. *)
Definition processMetaMessage_begin (j : MetaApiJobData) : list obs * promise :=
  match META_ACCESS_TOKEN with
  | Some token =>
      if present META_ACCESS_TOKEN
      then ([Logged Webhook.Info "Processing Meta API job";
             Posted (sendMessage_request (params_of token j))],
            AwaitingPost (sendMessage_request (params_of token j)))
      else ([Logged Webhook.Info "Processing Meta API job";
             Logged Webhook.Err "Meta API job failed"],
            Rejected (Error "Meta access token not configured"))
  | None =>
      ([Logged Webhook.Info "Processing Meta API job";
        Logged Webhook.Err "Meta API job failed"],
       Rejected (Error "Meta access token not configured"))
  end.

Definition logged (l : list (Webhook.level * string)) : list obs :=
  map (fun x => Logged (fst x) (snd x)) l.

(** Lines 37-58: [processMetaMessage] from its [await] on. *)
Definition processMetaMessage_settle (p : promise) (r : net_result)
  : list obs * outcome job_result :=
  match p with
  | Rejected e => ([], Throw e)
  | AwaitingPost _ =>
      match sendMessage_settle r with
      | (l, Normal data) =>
          (logged l ++ [Logged Webhook.Info "Meta message sent successfully"],
           Normal (mkResult true (message_id data)))
      | (l, Throw e) =>
          (logged l ++ [Logged Webhook.Err "Meta API job failed"], Throw e)
      end
  end.

(** The result of running an activation up to its next suspension:
    the fields, what was observed, where it is suspended (if it has not
    returned) and the error it rejected with (if any). *)
Record run : Type := mkRun
  { fields : SimpleMessageQueue;
    seen : list obs;
    suspended : option cont;
    rejection : option error }.

(** Lines 90-107: from the [while] test to the next [await], or to the
    end of [processQueue]. *)
Definition while_loop (q : SimpleMessageQueue) : run :=
  match queue q with
  | [] => mkRun (mkQueue [] false) [] None None
  | j :: rest =>
      let (effs, p) := processMetaMessage_begin j in
      mkRun (mkQueue rest (processing q)) (Invoked j :: effs)
            (Some (AwaitingProcess j p)) None
  end.

(** Lines 83-88. *)
Definition processQueue (q : SimpleMessageQueue) : run :=
  if processing q || (Nat.eqb (List.length (queue q)) 0)
  then mkRun q [] None None
  else while_loop (mkQueue (queue q) true).

(** Lines 72-78; [processQueue()] is called, not awaited. *)
Definition add (j : MetaApiJobData) (q : SimpleMessageQueue) : run :=
  let q1 := mkQueue (queue q ++ [j]) (processing q) in
  if negb (processing q1)
  then let r := processQueue q1 in
       mkRun (fields r) (Enqueued j :: seen r) (suspended r) None
  else mkRun q1 [Enqueued j] None None.

(** Lines 94-104, after [await processMetaMessage(jobData)] settles:
    the rest of the [try] block, or the [catch] block and the next
    iteration. *)
Definition after_process (j : MetaApiJobData) (o : outcome job_result)
  (q : SimpleMessageQueue) : run :=
  match o with
  | Normal _ =>
      mkRun q [Settled j true; TimerSet 1000] (Some AwaitingTimer) None
  | Throw _ =>
      let r := while_loop q in
      mkRun (fields r)
            (Settled j false :: Logged Webhook.Err "Failed to process queued message" :: seen r)
            (suspended r) (rejection r)
  end.

(** Line 98, after the timer: the next iteration. *)
Definition after_timer (q : SimpleMessageQueue) : run :=
  let r := while_loop q in
  mkRun (fields r) (TimerFired :: seen r) (suspended r) (rejection r).

(** ** The event loop *)

(** The queue object, the suspended activations of [processQueue], the
    rejections of their promises, and everything observed so far. *)
Record system : Type := mkSystem
  { object : SimpleMessageQueue;
    loops : list cont;
    rejected : list error;
    trace : list obs }.

Definition initial : system := mkSystem (mkQueue [] false) [] [] [].

(** What can happen next: a caller enqueues, the request awaited by the
    [i]-th suspended activation ends, or its timer fires. *)
Inductive action : Type :=
| Add (j : MetaApiJobData)
| Settle (i : nat) (r : net_result)
| Fire (i : nat).

Definition opt_list {A} (o : option A) : list A :=
  match o with Some a => [a] | None => [] end.

Definition commit (s : system) (before after : list cont) (pre : list obs) (r : run) : system :=
  mkSystem (fields r)
           (before ++ opt_list (suspended r) ++ after)
           (rejected s ++ opt_list (rejection r))
           (trace s ++ pre ++ seen r).

Definition exec (a : action) (s : system) : system :=
  match a with
  | Add j => commit s (loops s) [] [] (add j (object s))
  | Settle i r =>
      match nth_error (loops s) i with
      | Some (AwaitingProcess j p) =>
          let (effs, o) := processMetaMessage_settle p r in
          commit s (firstn i (loops s)) (skipn (S i) (loops s)) effs
                 (after_process j o (object s))
      | _ => s
      end
  | Fire i =>
      match nth_error (loops s) i with
      | Some AwaitingTimer =>
          commit s (firstn i (loops s)) (skipn (S i) (loops s)) []
                 (after_timer (object s))
      | _ => s
      end
  end.

Definition execs (acts : list action) (s : system) : system :=
  fold_left (fun st a => exec a st) acts s.

(** Letting the event loop run: the first suspended activation resumes,
    a request ending as [results] says at its turn. *)
Fixpoint drain (fuel : nat) (results : nat -> net_result) (s : system) : system :=
  match fuel with
  | O => s
  | S fuel' =>
      match loops s with
      | [] => s
      | AwaitingProcess _ _ :: _ => drain fuel' (fun n => results (S n)) (exec (Settle 0 (results O)) s)
      | AwaitingTimer :: _ => drain fuel' results (exec (Fire 0) s)
      end
  end.

(** ** Reading a trace *)

Fixpoint enqueued (t : list obs) : list MetaApiJobData :=
  match t with
  | [] => []
  | Enqueued j :: rest => j :: enqueued rest
  | _ :: rest => enqueued rest
  end.

Fixpoint invoked (t : list obs) : list MetaApiJobData :=
  match t with
  | [] => []
  | Invoked j :: rest => j :: invoked rest
  | _ :: rest => invoked rest
  end.

Fixpoint posted (t : list obs) : list request :=
  match t with
  | [] => []
  | Posted r :: rest => r :: posted rest
  | _ :: rest => posted rest
  end.

(** Scanning a trace for overlapping invocations: [busy] says whether an
    invocation has started and not yet settled. *)
Fixpoint serial_from (busy : bool) (t : list obs) : bool :=
  match t with
  | [] => true
  | Invoked _ :: rest => negb busy && serial_from true rest
  | Settled _ _ :: rest => busy && serial_from false rest
  | _ :: rest => serial_from busy rest
  end.

Definition serial (t : list obs) : bool := serial_from false t.

(** Whether an invocation is in flight at the end of a trace. *)
Fixpoint busy_after (busy : bool) (t : list obs) : bool :=
  match t with
  | [] => busy
  | Invoked _ :: rest => busy_after true rest
  | Settled _ _ :: rest => busy_after false rest
  | _ :: rest => busy_after busy rest
  end.

(** Scanning a trace for the pacing rule: after an invocation settles,
    the next one starts only once a timer of at least [ms] has been set
    and has fired.  [st] is 0 when an invocation may start, 1 after a
    settlement, 2 once the timer is set. *)
Fixpoint paced_from (ms : Z) (st : nat) (t : list obs) : bool :=
  match t with
  | [] => true
  | Invoked _ :: rest => Nat.eqb st 0 && paced_from ms 0 rest
  | Settled _ _ :: rest => paced_from ms 1 rest
  | TimerSet d :: rest =>
      if Nat.eqb st 1 && (ms <=? d)%Z then paced_from ms 2 rest else paced_from ms st rest
  | TimerFired :: rest =>
      if Nat.eqb st 2 then paced_from ms 0 rest else paced_from ms st rest
  | _ :: rest => paced_from ms st rest
  end.

Definition paced (ms : Z) (t : list obs) : bool := paced_from ms 0 t.

(** Lines 122-134: [queueMessage] builds the job and hands it to the
    singleton's [add]. *)
Definition queueMessage (psid text : string) (instagramAccountId dmLogId : option string)
  (q : SimpleMessageQueue) : run :=
  add {| merchantId := None;
         job_psid := psid;
         job_text := text;
         dmLogId := dmLogId;
         job_instagramAccountId := instagramAccountId |} q.

(** ** What holds of every state the event loop reaches *)

(** The jobs a sequence of actions enqueues. *)
Fixpoint added (acts : list action) : list MetaApiJobData :=
  match acts with
  | [] => []
  | Add j :: rest => j :: added rest
  | _ :: rest => added rest
  end.

(** Whether every request that ends in a sequence of actions ends with
    the provider's data. *)
Fixpoint delivered_only (acts : list action) : bool :=
  match acts with
  | [] => true
  | Settle _ (Failed _ _) :: _ => false
  | _ :: rest => delivered_only rest
  end.

(** The pacing automaton's state at the end of a trace. *)
Fixpoint pace_after (ms : Z) (st : nat) (t : list obs) : nat :=
  match t with
  | [] => st
  | Invoked _ :: rest => pace_after ms 0 rest
  | Settled _ _ :: rest => pace_after ms 1 rest
  | TimerSet d :: rest =>
      if Nat.eqb st 1 && (ms <=? d)%Z then pace_after ms 2 rest else pace_after ms st rest
  | TimerFired :: rest =>
      if Nat.eqb st 2 then pace_after ms 0 rest else pace_after ms st rest
  | _ :: rest => pace_after ms st rest
  end.

(** A stretch of trace that only logs and posts: nothing is enqueued,
    invoked or settled in it, and no timer is touched. *)
Definition quiet (t : list obs) : bool :=
  forallb (fun o => match o with Logged _ _ | Posted _ => true | _ => false end) t.

(** At most one activation of [processQueue] is suspended; [processing]
    is set exactly while one is; an idle queue is empty; what was
    enqueued is what was invoked followed by what still waits; no two
    invocations overlap; and no activation has rejected. *)
Definition Inv (s : system) : Prop :=
  rejected s = [] /\
  enqueued (trace s) = invoked (trace s) ++ queue (object s) /\
  serial (trace s) = true /\
  match loops s with
  | [] => object s = mkQueue [] false /\ busy_after false (trace s) = false
  | [AwaitingProcess _ _] =>
      processing (object s) = true /\ busy_after false (trace s) = true
  | [AwaitingTimer] =>
      processing (object s) = true /\ busy_after false (trace s) = false
  | _ => False
  end.

(** Where the pacing automaton stands while every request is delivered:
    an invocation may start when the queue is idle or a request is in
    flight (the activation then awaits a request, never a promise that
    was rejected from the start), and the timer is set while the
    activation waits for it. *)
Definition Pace (s : system) : Prop :=
  paced 1000 (trace s) = true /\
  match loops s with
  | [] => pace_after 1000 0 (trace s) = 0
  | [AwaitingProcess _ p] =>
      pace_after 1000 0 (trace s) = 0 /\ exists r, p = AwaitingPost r
  | [AwaitingTimer] => pace_after 1000 0 (trace s) = 2
  | _ => False
  end.

(** How many resumptions are left before the queue is idle. *)
Definition remaining (s : system) : nat :=
  2 * List.length (queue (object s)) +
  match loops s with
  | AwaitingProcess _ _ :: _ => 2
  | AwaitingTimer :: _ => 1
  | [] => 0
  end.

End WithToken.

(** States the event loop can reach from a fresh queue. *)
Definition reachable (token : option string) (s : system) : Prop :=
  exists acts, s = execs token acts initial.

End Processor.

(* ===================================================================== *)
(** * Properties of the webhook controller                                *)
(* ===================================================================== *)

Module WebhookProofs.
Import JS Webhook.

(** ** Property access *)

Lemma truthy_not_nullish v : truthy v = true -> nullish v = false.
Proof. destruct v; simpl; congruence. Qed.

Lemma read_nullish v k : nullish v = true -> read v k = VUndef.
Proof. destruct v; simpl; congruence. Qed.

(** Optional chaining and plain reading agree on what they return; they
    differ only in that the plain form throws on [null] and [undefined]. *)
Lemma opt_read v k : opt v k = read v k.
Proof.
  unfold opt. destruct (nullish v) eqn:E; [ now rewrite read_nullish | reflexivity ].
Qed.

Lemma opt_idx0_first v : opt_idx0 v = first v.
Proof. destruct v; reflexivity. Qed.

Lemma dot_ok v k : nullish v = false -> dot v k = Normal (read v k).
Proof. unfold dot. now intros ->. Qed.

Lemma idx0_ok v : nullish v = false -> idx0 v = Normal (first v).
Proof. unfold idx0. now intros ->. Qed.

Lemma read_truthy_not_nullish v k : truthy (read v k) = true -> nullish v = false.
Proof. destruct v; simpl; congruence. Qed.

Lemma truthy_str s : truthy (VStr s) = true <-> s <> "".
Proof.
  simpl. rewrite negb_true_iff. split.
  - intros E ->. now rewrite String.eqb_refl in E.
  - intros N. now apply String.eqb_neq.
Qed.

(** ** The effect monad *)

Lemma bind_pure {A B} (a : A) (k : A -> M B) : bind ([], Done a) k = k a.
Proof. unfold bind. destruct (k a); reflexivity. Qed.

Lemma bind_lift {A B} (a : A) (k : A -> M B) : bind (lift (Normal a)) k = k a.
Proof. apply bind_pure. Qed.

Lemma bind_ret {A B} (a : A) (k : A -> M B) : bind (ret a) k = k a.
Proof. apply bind_pure. Qed.

Lemma bind_emit {B} e (k : unit -> M B) :
  bind (emit e) k = (e :: fst (k tt), snd (k tt)).
Proof. unfold bind, emit. destruct (k tt); reflexivity. Qed.

Lemma fst_bind {A B} (m : M A) (k : A -> M B) :
  fst (bind m k) =
  fst m ++ match snd m with Done a => fst (k a) | Abrupt _ => [] end.
Proof.
  destruct m as [w [a|e]]; simpl.
  - destruct (k a); reflexivity.
  - now rewrite app_nil_r.
Qed.

Lemma snd_bind {A B} (m : M A) (k : A -> M B) :
  snd (bind m k) =
  match snd m with Done a => snd (k a) | Abrupt x => Abrupt x end.
Proof.
  destruct m as [w [a|e]]; simpl; [ destruct (k a) | ]; reflexivity.
Qed.

Lemma calls_app w1 w2 : calls (w1 ++ w2) = calls w1 ++ calls w2.
Proof.
  induction w1 as [|[l m|c|p t pf] w1 IH]; simpl; [ | | | f_equal ]; auto.
Qed.

Lemma statuses_app w1 w2 : statuses (w1 ++ w2) = statuses w1 ++ statuses w2.
Proof.
  induction w1 as [|[l m|c|p t pf] w1 IH]; simpl; [ | | f_equal | ]; auto.
Qed.

(** ** The two formats, on an entry that is an object *)

Lemma in_and_truthy_obj f k :
  in_and_truthy k (VObj f) = ([], Done (truthy (read (VObj f) k))).
Proof.
  unfold in_and_truthy, bind, lift, ret, has, dot. simpl.
  destruct (own k f); reflexivity.
Qed.

(** The Messenger format reads [messaging[0]] and calls the handler when
    the element has a truthy [message] and a truthy [sender.id]; a text
    that is neither a string nor an array stops it with a [TypeError]. *)
Lemma handle_messenger_obj h f :
  handle_messenger h (VObj f) =
  let ms := read (VObj f) "messaging" in
  let messaging := first ms in
  let psid := read (read messaging "sender") "id" in
  let txt := or (read (read messaging "message") "text") (VStr "") in
  if truthy ms && (truthy (read messaging "message") && truthy psid) then
    if has_slice txt
    then ([Log Info "Messenger message received"; Call psid txt messenger],
          h psid txt messenger)
    else ([], Abrupt (Raised (TypeError "text.slice is not a function")))
  else ([], Done tt).
Proof.
  unfold handle_messenger. rewrite in_and_truthy_obj, bind_pure.
  cbv zeta.
  destruct (truthy (read (VObj f) "messaging")) eqn:Hms; [ | reflexivity ].
  rewrite (dot_ok (VObj f)) by reflexivity. rewrite bind_lift.
  rewrite idx0_ok by (now apply truthy_not_nullish). rewrite bind_lift.
  rewrite !opt_read. cbn [andb].
  set (m := first (read (VObj f) "messaging")).
  destruct (truthy (read m "message")) eqn:Hm; [ | reflexivity ].
  destruct (truthy (read (read m "sender") "id")) eqn:Hid; [ | reflexivity ].
  cbn [andb].
  rewrite (dot_ok m) by (now apply (read_truthy_not_nullish m "message")).
  rewrite bind_lift.
  rewrite (dot_ok (read m "sender")) by (now apply (read_truthy_not_nullish _ "id")).
  rewrite bind_lift.
  rewrite (dot_ok m) by (now apply (read_truthy_not_nullish m "message")).
  rewrite bind_lift. rewrite opt_read.
  unfold slice_preview.
  destruct (has_slice _); [ | reflexivity ].
  rewrite bind_ret, bind_emit. unfold call_handler. rewrite bind_emit.
  unfold lift. reflexivity.
Qed.

Lemma igMessage_of_read change :
  igMessage_of change =
  or (first (read change "messages"))
     (if truthy (read (read change "from") "id") then change else VNull).
Proof. unfold igMessage_of. now rewrite !opt_read, opt_idx0_first. Qed.

(** The Instagram format reads [changes[0].value], picks the message and
    calls the handler when the message has a truthy [from.id]. *)
Lemma handle_instagram_obj h f :
  handle_instagram h (VObj f) =
  let cs := read (VObj f) "changes" in
  let ig := igMessage_of (read (first cs) "value") in
  let psid := read (read ig "from") "id" in
  let txt := or (or (read ig "text") (read (read ig "message") "text")) (VStr "") in
  if truthy cs && truthy psid then
    if has_slice txt
    then ([Log Info "Instagram message received"; Call psid txt instagram],
          h psid txt instagram)
    else ([], Abrupt (Raised (TypeError "text.slice is not a function")))
  else ([], Done tt).
Proof.
  unfold handle_instagram. rewrite in_and_truthy_obj, bind_pure.
  cbv zeta.
  destruct (truthy (read (VObj f) "changes")) eqn:Hcs; [ | reflexivity ].
  rewrite (dot_ok (VObj f)) by reflexivity. rewrite bind_lift.
  rewrite idx0_ok by (now apply truthy_not_nullish). rewrite bind_lift.
  rewrite !opt_read. cbn [andb].
  set (ig := igMessage_of _).
  destruct (truthy (read (read ig "from") "id")) eqn:Hid; [ | reflexivity ].
  assert (Hig : nullish ig = false).
  { destruct ig; try reflexivity; discriminate Hid. }
  rewrite (dot_ok ig) by exact Hig. rewrite bind_lift.
  rewrite (dot_ok (read ig "from")) by (now apply (read_truthy_not_nullish _ "id")).
  rewrite bind_lift.
  rewrite !(dot_ok ig) by exact Hig. rewrite !bind_lift. rewrite opt_read.
  unfold slice_preview.
  destruct (has_slice _); [ | reflexivity ].
  rewrite bind_ret.
  rewrite (dot_ok (read ig "from")) by (now apply (read_truthy_not_nullish _ "id")).
  rewrite bind_lift, bind_emit. unfold call_handler. rewrite bind_emit.
  unfold lift. reflexivity.
Qed.

(** ** One entry *)

Lemma process_entry_events h e :
  entry_events h e =
  calls (fst (handle_messenger h e)) ++
  (if completes (snd (handle_messenger h e))
   then calls (fst (handle_instagram h e)) else []).
Proof.
  unfold entry_events, process_entry. rewrite fst_bind, calls_app.
  now destruct (snd (handle_messenger h e)).
Qed.

Ltac no_event := exists false; split; [ reflexivity | discriminate ].

Lemma messenger_events h e :
  exists b : bool,
    map on (calls (fst (handle_messenger h e))) = (if b then [messenger] else []) /\
    (b = true -> truthy (read e "messaging") = true).
Proof.
  destruct e; try no_event.
  rewrite handle_messenger_obj. cbv zeta.
  destruct (truthy (read (VObj fields) "messaging")) eqn:E; [ | no_event ].
  cbn [andb].
  match goal with |- context [if ?c then _ else _] => destruct c end; [ | no_event ].
  destruct (has_slice _); [ | no_event ].
  exists true. split; [ reflexivity | auto ].
Qed.

Lemma instagram_events h e :
  exists b : bool,
    map on (calls (fst (handle_instagram h e))) = (if b then [instagram] else []) /\
    (b = true -> truthy (read e "changes") = true).
Proof.
  destruct e; try no_event.
  rewrite handle_instagram_obj. cbv zeta.
  destruct (truthy (read (VObj fields) "changes")) eqn:E; [ | no_event ].
  cbn [andb].
  match goal with |- context [if ?c then _ else _] => destruct c end; [ | no_event ].
  destruct (has_slice _); [ | no_event ].
  exists true. split; [ reflexivity | auto ].
Qed.

(** An entry that is an object and whose two fields are missing or
    empty is passed over: nothing is logged, nothing is thrown. *)
Lemma skip_entry h f :
  missing_or_empty (read (VObj f) "messaging") = true ->
  missing_or_empty (read (VObj f) "changes") = true ->
  process_entry h (VObj f) = ret tt.
Proof.
  intros Hm Hc. unfold process_entry.
  rewrite handle_messenger_obj, handle_instagram_obj. cbv zeta.
  destruct (read (VObj f) "messaging") as [ | | | | |[|x xs]| ]; try discriminate Hm;
  destruct (read (VObj f) "changes") as [ | | | | |[|y ys]| ]; try discriminate Hc;
  reflexivity.
Qed.

(** ** What a branch does when it calls the handler *)

Lemma handle_messenger_call h e :
  (fst (handle_messenger h e) = [] /\
   rejects_with_nothing (snd (handle_messenger h e)) = false) \/
  exists p t,
    fst (handle_messenger h e) =
      [Log Info "Messenger message received"; Call p t messenger] /\
    snd (handle_messenger h e) = h p t messenger /\
    truthy p = true /\ has_slice t = true.
Proof.
  destruct e; try (left; split; reflexivity).
  rewrite handle_messenger_obj. cbv zeta.
  destruct (truthy (read (VObj fields) "messaging")); [ | left; split; reflexivity ].
  destruct (truthy (read (first (read (VObj fields) "messaging")) "message")); [ | left; split; reflexivity ].
  cbn [andb].
  destruct (truthy (read (read (first (read (VObj fields) "messaging")) "sender") "id")) eqn:P;
    [ | left; split; reflexivity ].
  destruct (has_slice _) eqn:S; [ | left; split; reflexivity ].
  right. eexists _, _. repeat split; eauto.
Qed.

Lemma handle_instagram_call h e :
  (fst (handle_instagram h e) = [] /\
   rejects_with_nothing (snd (handle_instagram h e)) = false) \/
  exists p t,
    fst (handle_instagram h e) =
      [Log Info "Instagram message received"; Call p t instagram] /\
    snd (handle_instagram h e) = h p t instagram /\
    truthy p = true /\ has_slice t = true.
Proof.
  destruct e; try (left; split; reflexivity).
  rewrite handle_instagram_obj. cbv zeta.
  destruct (truthy (read (VObj fields) "changes")); [ | left; split; reflexivity ].
  cbn [andb].
  match goal with |- context [if truthy ?x then _ else _] => destruct (truthy x) eqn:P end;
    [ | left; split; reflexivity ].
  destruct (has_slice _) eqn:S; [ | left; split; reflexivity ].
  right. eexists _, _. repeat split; eauto.
Qed.

Lemma fst_process_entry h e :
  fst (process_entry h e) =
  fst (handle_messenger h e) ++
  (if completes (snd (handle_messenger h e)) then fst (handle_instagram h e) else []).
Proof.
  unfold process_entry. rewrite fst_bind. now destruct (snd (handle_messenger h e)).
Qed.

Lemma snd_process_entry h e :
  snd (process_entry h e) =
  match snd (handle_messenger h e) with
  | Done _ => snd (handle_instagram h e)
  | Abrupt x => Abrupt x
  end.
Proof. unfold process_entry. now rewrite snd_bind. Qed.

Lemma statuses_process_entry h e : statuses (fst (process_entry h e)) = [].
Proof.
  rewrite fst_process_entry, statuses_app.
  destruct (handle_messenger_call h e) as [[-> _] | (p & t & -> & _)];
  destruct (completes _); cbn [statuses app]; try reflexivity;
  destruct (handle_instagram_call h e) as [[-> _] | (p' & t' & -> & _)]; reflexivity.
Qed.

Lemma fst_for_each_cons h e rest :
  fst (for_each h (e :: rest)) =
  fst (process_entry h e) ++
  (if completes (snd (process_entry h e)) then fst (for_each h rest) else []).
Proof. cbn [for_each]. rewrite fst_bind. now destruct (snd (process_entry h e)). Qed.

Lemma snd_for_each_cons h e rest :
  snd (for_each h (e :: rest)) =
  match snd (process_entry h e) with
  | Done _ => snd (for_each h rest)
  | Abrupt x => Abrupt x
  end.
Proof. cbn [for_each]. now rewrite snd_bind. Qed.

Lemma statuses_for_each h es : statuses (fst (for_each h es)) = [].
Proof.
  induction es as [|e es IH]; [ reflexivity | ].
  rewrite fst_for_each_cons, statuses_app, statuses_process_entry.
  now destruct (completes _).
Qed.

(** ** The catch block *)

(** The [catch] block logs and completes, unless what was thrown is
    [null] or [undefined]: reading [error.message] then throws, nothing
    is logged and the handler's promise rejects. *)
Lemma catch_block_cases x :
  catch_block x =
  if rejects_with_nothing (@Abrupt unit x)
  then ([], Abrupt (Raised (TypeError
              "Cannot read properties of null or undefined (reading 'message')")))
  else ([Log Err "Webhook processing error"], Done tt).
Proof.
  destruct x as [e|v]; [ reflexivity | ].
  unfold catch_block, read_for_log, dot. cbn [rejects_with_nothing].
  destruct (nullish v); reflexivity.
Qed.

Lemma calls_catch_block x : calls (fst (catch_block x)) = [].
Proof. rewrite catch_block_cases. now destruct (rejects_with_nothing _). Qed.

Lemma statuses_catch_block x : statuses (fst (catch_block x)) = [].
Proof. rewrite catch_block_cases. now destruct (rejects_with_nothing _). Qed.

(** A statement left with [null] or [undefined] got it from the
    handler: the language and the controller's own code only throw
    error objects. *)
Lemma process_entry_origin h e :
  rejects_with_nothing (snd (process_entry h e)) = true ->
  exists p t pf,
    In (Call p t pf) (fst (process_entry h e)) /\
    rejects_with_nothing (h p t pf) = true.
Proof.
  rewrite fst_process_entry, snd_process_entry.
  destruct (handle_messenger_call h e) as [[E R] | (p & t & E & O & _)].
  - rewrite E. cbn [app]. revert R.
    destruct (snd (handle_messenger h e)) as [[]|x]; cbn [completes];
      [ intros _ | intros R H; congruence ].
    destruct (handle_instagram_call h e) as [[E' R'] | (p' & t' & E' & O' & _)].
    + intros H. congruence.
    + rewrite E', O'. intros H. exists p', t', instagram.
      split; [ right; now left | exact H ].
  - rewrite E, O. destruct (h p t messenger) as [[]|x] eqn:Hm; cbn [completes].
    + destruct (handle_instagram_call h e) as [[E' R'] | (p' & t' & E' & O' & _)].
      * intros H. congruence.
      * rewrite E', O'. intros H. exists p', t', instagram.
        split; [ apply in_or_app; right; right; now left | exact H ].
    + intros H. exists p, t, messenger. split.
      * apply in_or_app. left. right. now left.
      * now rewrite Hm.
Qed.

Lemma for_each_origin h es :
  rejects_with_nothing (snd (for_each h es)) = true ->
  exists p t pf,
    In (Call p t pf) (fst (for_each h es)) /\
    rejects_with_nothing (h p t pf) = true.
Proof.
  induction es as [|e es IH]; [ discriminate | ].
  rewrite fst_for_each_cons, snd_for_each_cons.
  destruct (snd (process_entry h e)) as [[]|x] eqn:S; cbn [completes].
  - intros H. destruct (IH H) as (p & t & pf & I & R).
    exists p, t, pf. split; [ apply in_or_app; now right | exact R ].
  - intros H. destruct (process_entry_origin h e) as (p & t & pf & I & R);
      [ now rewrite S | ].
    exists p, t, pf. split; [ apply in_or_app; now left | exact R ].
Qed.

(** ** The whole payload *)

(** Whatever the body, the controller processes some list of entries
    (none when the body has no usable [entry]) inside its [try]; it
    completes normally unless that processing was left with [null] or
    [undefined]. *)
Lemma receiveWebhook_shape h body :
  exists es before after,
    fst (receiveWebhook h body) = SendStatus 200 :: before ++ fst (for_each h es) ++ after /\
    calls before = [] /\ statuses before = [] /\
    calls after = [] /\ statuses after = [] /\
    (snd (receiveWebhook h body) = Done tt \/
     rejects_with_nothing (snd (for_each h es)) = true).
Proof.
  unfold receiveWebhook. rewrite bind_emit. cbn [fst snd].
  destruct (nullish body) eqn:N.
  - unfold dot. rewrite N. exists [], [], [Log Err "Webhook processing error"].
    repeat split; now left.
  - rewrite dot_ok by assumption. rewrite bind_lift, bind_emit.
    destruct (negb (truthy (read body "entry")) || length_is_zero (read body "entry")).
    + exists [], [Log Info "Webhook received"; Log Warn "No entries in webhook payload"], [].
      repeat split; now left.
    + destruct (iterate (read body "entry")) as [es|err].
      * rewrite bind_lift. exists es, [Log Info "Webhook received"].
        destruct (for_each h es) as [w [[]|x]]; cbn [fst snd try_catch emit app].
        -- exists []. rewrite app_nil_r. repeat split; now left.
        -- rewrite catch_block_cases.
           destruct (rejects_with_nothing (Abrupt x)) eqn:R.
           ++ exists []. rewrite !app_nil_r. repeat split; now right.
           ++ exists [Log Err "Webhook processing error"]. repeat split; now left.
      * exists [], [Log Info "Webhook received"], [Log Err "Webhook processing error"].
        repeat split; now left.
Qed.

Lemma normalize_shape h body :
  exists es, normalize h body = calls (fst (for_each h es)).
Proof.
  destruct (receiveWebhook_shape h body) as (es & b & a & E & Cb & _ & Ca & _).
  exists es. unfold normalize. rewrite E. cbn [calls].
  now rewrite !calls_app, Cb, Ca, app_nil_r.
Qed.

(** The controller's promise rejects only when the handler was called
    and rejected with [null] or [undefined]. *)
Lemma receiveWebhook_origin h body :
  snd (receiveWebhook h body) = Done tt \/
  exists p t pf,
    In (Call p t pf) (fst (receiveWebhook h body)) /\
    rejects_with_nothing (h p t pf) = true.
Proof.
  destruct (receiveWebhook_shape h body) as (es & b & a & E & _ & _ & _ & _ & [D | R]);
    [ now left | right ].
  destruct (for_each_origin h es R) as (p & t & pf & I & R').
  exists p, t, pf. split; [ | exact R' ].
  rewrite E. right. apply in_or_app. right. apply in_or_app. now left.
Qed.

Lemma receiveWebhook_entries h b es :
  read (VObj b) "entry" = VArr es -> es <> [] ->
  receiveWebhook h (VObj b) =
  (SendStatus 200 :: Log Info "Webhook received" :: fst (for_each h es) ++
     match snd (for_each h es) with
     | Done _ => []
     | Abrupt x => fst (catch_block x)
     end,
   match snd (for_each h es) with
   | Done _ => Done tt
   | Abrupt x => snd (catch_block x)
   end).
Proof.
  intros E N. unfold receiveWebhook. rewrite bind_emit.
  rewrite (dot_ok (VObj b)) by reflexivity. rewrite bind_lift, bind_emit, E.
  assert (Z : length_is_zero (VArr es) = false).
  { unfold length_is_zero. simpl. destruct es; [ congruence | reflexivity ]. }
  rewrite Z. cbn [truthy negb orb iterate]. rewrite bind_lift.
  destruct (for_each h es) as [w [[]|x]]; cbn [fst snd try_catch].
  - now rewrite app_nil_r.
  - now destruct (catch_block x).
Qed.

Lemma receiveWebhook_no_entries h b :
  missing_or_empty (read (VObj b) "entry") = true ->
  receiveWebhook h (VObj b) =
  ([SendStatus 200; Log Info "Webhook received"; Log Warn "No entries in webhook payload"],
   Done tt).
Proof.
  intros E. unfold receiveWebhook. rewrite bind_emit.
  rewrite (dot_ok (VObj b)) by reflexivity. rewrite bind_lift, bind_emit.
  destruct (read (VObj b) "entry") as [ | | | | |[|x xs]| ]; try discriminate E; reflexivity.
Qed.

Lemma normalize_entries h b es :
  read (VObj b) "entry" = VArr es ->
  normalize h (VObj b) = calls (fst (for_each h es)).
Proof.
  intros E. unfold normalize. destruct es as [|e es].
  - rewrite receiveWebhook_no_entries by now rewrite E. reflexivity.
  - rewrite (receiveWebhook_entries h b (e :: es)) by (auto; discriminate).
    cbn [fst calls]. rewrite calls_app.
    destruct (snd (for_each h (e :: es))); rewrite ?calls_catch_block; cbn [calls];
      now rewrite app_nil_r.
Qed.

Lemma for_each_cons_events h e rest :
  calls (fst (for_each h (e :: rest))) =
  entry_events h e ++
  (if completes (snd (process_entry h e)) then calls (fst (for_each h rest)) else []).
Proof.
  rewrite fst_for_each_cons, calls_app. unfold entry_events.
  now destruct (completes _).
Qed.

Lemma normalize_single h e : normalize h (payload_of [e]) = entry_events h e.
Proof.
  unfold payload_of. rewrite (normalize_entries h _ [e]) by reflexivity.
  rewrite for_each_cons_events. cbn [for_each ret fst calls].
  destruct (completes _); now rewrite app_nil_r.
Qed.

Lemma for_each_stops h pre e post :
  completes (snd (process_entry h e)) = false ->
  for_each h (pre ++ e :: post) = for_each h (pre ++ [e]).
Proof.
  intros T. induction pre as [|x pre IH]; cbn [app for_each].
  - unfold bind. destruct (process_entry h e) as [w [[]|x0]]; [ discriminate T | reflexivity ].
  - now rewrite IH.
Qed.

Lemma for_each_throws h pre e post :
  completes (snd (process_entry h e)) = false ->
  completes (snd (for_each h (pre ++ e :: post))) = false.
Proof.
  intros T. induction pre as [|x pre IH]; cbn [app]; rewrite snd_for_each_cons.
  - destruct (snd (process_entry h e)); [ discriminate T | reflexivity ].
  - destruct (snd (process_entry h x)); [ exact IH | reflexivity ].
Qed.

(** When the loop is left by a throw, the [catch] block decides how the
    controller ends. *)
Lemma receiveWebhook_thrown h es :
  completes (snd (for_each h es)) = false ->
  receiveWebhook h (payload_of es) =
  (SendStatus 200 :: Log Info "Webhook received" :: fst (for_each h es) ++
     (if rejects_with_nothing (snd (for_each h es)) then []
      else [Log Err "Webhook processing error"]),
   if rejects_with_nothing (snd (for_each h es))
   then Abrupt (Raised (TypeError
                  "Cannot read properties of null or undefined (reading 'message')"))
   else Done tt).
Proof.
  intros T. unfold payload_of.
  rewrite (receiveWebhook_entries h _ es) by (reflexivity || (intros ->; discriminate T)).
  destruct (snd (for_each h es)) as [[]|x]; [ discriminate T | ].
  rewrite catch_block_cases. now destruct (rejects_with_nothing (Abrupt x)).
Qed.

(** A handler that never rejects with [null] or [undefined] leaves no
    statement with one. *)
Lemma for_each_reason h es :
  (forall p t pf, rejects_with_nothing (h p t pf) = false) ->
  rejects_with_nothing (snd (for_each h es)) = false.
Proof.
  intros R. destruct (rejects_with_nothing (snd (for_each h es))) eqn:E; [ | reflexivity ].
  destruct (for_each_origin h es E) as (p & t & pf & _ & C). now rewrite R in C.
Qed.

(** ** The Messenger format (lines 69-84) *)

(** Claim C3, as stated, fails for an empty sender id: the id is tested
    for truthiness, so the entry is passed over and no event is
    emitted. *)
Lemma C3_empty_sender_id_no_event :
  normalize resolves
    (payload_of [messaging_entry
                   [messenger_message (VStr "") (VObj [("text", VStr "hi")])]]) = [].
Proof. reflexivity. Qed.

(** Claim C3 (amended).  For every Messenger entry (an object with a
    [messaging] array and no truthy [changes]): when its first messaging
    element has a non-empty [sender.id] of [S] and a [message] object
    with [text] of [T], the entry, and a payload holding just that
    entry, yield exactly one event: recipient [S], text [T], platform
    messenger; when [message.text] is missing the text is the empty
    string.  When the element's [sender.id] is the empty string (or is
    missing, or otherwise falsy), the entry yields no event. *)
Theorem C3_messenger_entry_one_event h fields m more :
  read (VObj fields) "messaging" = VArr (m :: more) ->
  truthy (read (VObj fields) "changes") = false ->
  (forall S msg T,
     read (read m "sender") "id" = VStr S ->
     S <> "" ->
     read m "message" = VObj msg ->
     read (VObj msg) "text" = VStr T \/ (read (VObj msg) "text" = VUndef /\ T = "") ->
     entry_events h (VObj fields) = [mkEvent (VStr S) (VStr T) messenger] /\
     normalize h (payload_of [VObj fields]) = [mkEvent (VStr S) (VStr T) messenger]) /\
  (truthy (read (read m "sender") "id") = false ->
   entry_events h (VObj fields) = [] /\
   normalize h (payload_of [VObj fields]) = []).
Proof.
  intros Hms Hcs.
  assert (E : entry_events h (VObj fields) =
              calls (fst (handle_messenger h (VObj fields)))).
  { rewrite process_entry_events, handle_instagram_obj. cbv zeta. rewrite Hcs.
    cbn [andb fst calls]. destruct (completes _); now rewrite app_nil_r. }
  rewrite normalize_single, E, handle_messenger_obj. cbv zeta.
  rewrite Hms. cbn [first truthy andb]. split.
  - intros S msg T Hid HS Hmsg Htxt. rewrite Hmsg, Hid.
    apply truthy_str in HS. rewrite HS. cbn [truthy andb].
    assert (Ht : or (read (VObj msg) "text") (VStr "") = VStr T).
    { destruct Htxt as [-> | [-> ->]]; [ | reflexivity ].
      unfold or. simpl. destruct (T =? "") eqn:ET; [ | reflexivity ].
      apply String.eqb_eq in ET. now subst. }
    rewrite Ht. cbn [has_slice fst calls]. split; reflexivity.
  - intros ->. rewrite andb_false_r. split; reflexivity.
Qed.

Lemma C3_messenger_entry_one_event_witness :
  (entry_events resolves
     (messaging_entry [messenger_message (VStr "u1") (VObj [("text", VStr "hi")])]) =
     [mkEvent (VStr "u1") (VStr "hi") messenger] /\
   normalize resolves
     (payload_of [messaging_entry
                    [messenger_message (VStr "u1") (VObj [("text", VStr "hi")])]]) =
     [mkEvent (VStr "u1") (VStr "hi") messenger]) /\
  (entry_events resolves
     (messaging_entry [messenger_message (VStr "") (VObj [("text", VStr "hi")])]) = [] /\
   normalize resolves
     (payload_of [messaging_entry
                    [messenger_message (VStr "") (VObj [("text", VStr "hi")])]]) = []).
Proof.
  unfold messaging_entry. split.
  - apply (proj1 (C3_messenger_entry_one_event resolves
                    [("id", VStr "page-1"); ("time", VNum 0);
                     ("messaging",
                      VArr [messenger_message (VStr "u1") (VObj [("text", VStr "hi")])])]
                    (messenger_message (VStr "u1") (VObj [("text", VStr "hi")])) []
                    eq_refl eq_refl)
             "u1" [("text", VStr "hi")] "hi").
    + reflexivity.
    + discriminate.
    + reflexivity.
    + left. reflexivity.
  - apply (proj2 (C3_messenger_entry_one_event resolves
                    [("id", VStr "page-1"); ("time", VNum 0);
                     ("messaging",
                      VArr [messenger_message (VStr "") (VObj [("text", VStr "hi")])])]
                    (messenger_message (VStr "") (VObj [("text", VStr "hi")])) []
                    eq_refl eq_refl)).
    reflexivity.
Defined.

(** ** The Instagram format (lines 87-109) *)

Lemma change_entry_instagram h v :
  process_entry h (change_entry v) =
  let ig := igMessage_of v in
  let psid := read (read ig "from") "id" in
  let txt := or (or (read ig "text") (read (read ig "message") "text")) (VStr "") in
  if truthy psid then
    if has_slice txt
    then ([Log Info "Instagram message received"; Call psid txt instagram],
          h psid txt instagram)
    else ([], Abrupt (Raised (TypeError "text.slice is not a function")))
  else ([], Done tt).
Proof.
  unfold process_entry, change_entry.
  rewrite handle_messenger_obj, handle_instagram_obj. cbv zeta.
  change (read (VObj [("id", VStr "ig-1"); ("time", VNum 0);
                      ("changes", VArr [VObj [("field", VStr "messages"); ("value", v)]])])
               "messaging") with VUndef.
  change (read (VObj [("id", VStr "ig-1"); ("time", VNum 0);
                      ("changes", VArr [VObj [("field", VStr "messages"); ("value", v)]])])
               "changes") with (VArr [VObj [("field", VStr "messages"); ("value", v)]]).
  cbn [truthy andb first]. rewrite bind_pure.
  change (read (VObj [("field", VStr "messages"); ("value", v)]) "value") with v.
  reflexivity.
Qed.

Lemma from_id_truthy m :
  truthy (read (read m "from") "id") = true -> truthy m = true.
Proof. destruct m; try discriminate; auto. Qed.

Lemma igMessage_of_cases change :
  igMessage_of change =
  if truthy (first (read change "messages")) then first (read change "messages")
  else if truthy (read (read change "from") "id") then change else VNull.
Proof. rewrite igMessage_of_read. reflexivity. Qed.

Lemma igMessage_in_messages m :
  igMessage_of (in_messages [m]) = if truthy m then m else VNull.
Proof. rewrite igMessage_of_read. reflexivity. Qed.

Lemma igMessage_of_ig_message S T :
  igMessage_of (ig_message (VStr S) (VStr T)) =
  if S =? "" then VNull else ig_message (VStr S) (VStr T).
Proof.
  rewrite igMessage_of_cases.
  change (read (ig_message (VStr S) (VStr T)) "messages") with VUndef.
  change (read (read (ig_message (VStr S) (VStr T)) "from") "id") with (VStr S).
  cbn [first truthy]. now destruct (S =? "").
Qed.

Lemma or_text T : or (or (VStr T) VUndef) (VStr "") = VStr T.
Proof.
  unfold or. cbn [truthy]. destruct (T =? "") eqn:ET; cbn [negb truthy].
  - apply String.eqb_eq in ET. now subst.
  - now rewrite ET.
Qed.

Lemma ig_message_event h S T :
  entry_events h (change_entry (ig_message (VStr S) (VStr T))) =
  if S =? "" then [] else [mkEvent (VStr S) (VStr T) instagram].
Proof.
  unfold entry_events. rewrite change_entry_instagram. cbv zeta.
  rewrite igMessage_of_ig_message.
  destruct (S =? "") eqn:ES; [ reflexivity | ].
  change (read (read (ig_message (VStr S) (VStr T)) "from") "id") with (VStr S).
  change (read (ig_message (VStr S) (VStr T)) "text") with (VStr T).
  change (read (read (ig_message (VStr S) (VStr T)) "message") "text") with VUndef.
  rewrite or_text. cbn [truthy has_slice]. rewrite ES. reflexivity.
Qed.

Lemma branches_agree h m :
  truthy (first (read m "messages")) = false ->
  process_entry h (change_entry (in_messages [m])) = process_entry h (change_entry m).
Proof.
  intros A. rewrite !change_entry_instagram. cbv zeta.
  rewrite igMessage_in_messages, (igMessage_of_cases m), A.
  destruct (truthy (read (read m "from") "id")) eqn:F.
  - now rewrite (from_id_truthy m F).
  - destruct (truthy m); [ rewrite F | ]; reflexivity.
Qed.

(** Claim C4, as stated, fails for an empty sender id: neither shape
    produces an event. *)
Lemma C4_empty_from_id_no_event :
  normalize resolves
    (payload_of [change_entry (in_messages [ig_message (VStr "") (VStr "yo")])]) = [] /\
  normalize resolves
    (payload_of [change_entry (ig_message (VStr "") (VStr "yo"))]) = [].
Proof. split; reflexivity. Qed.

(** Claim C4 (amended).  The Branch A input, whose [changes[0].value]
    lists the message with [from.id] of [S] and [text] of [T] under
    [messages], and the Branch B input, whose [changes[0].value] is that
    message itself, are processed identically (same log lines, same
    handler call, same completion); both yield the single event with
    recipient [S], text [T] and platform instagram when [S] is not
    empty, and no event when it is. *)
Theorem C4_both_shapes_same_event h S T :
  process_entry h (change_entry (in_messages [ig_message (VStr S) (VStr T)])) =
  process_entry h (change_entry (ig_message (VStr S) (VStr T))) /\
  entry_events h (change_entry (in_messages [ig_message (VStr S) (VStr T)])) =
    (if S =? "" then [] else [mkEvent (VStr S) (VStr T) instagram]) /\
  entry_events h (change_entry (ig_message (VStr S) (VStr T))) =
    (if S =? "" then [] else [mkEvent (VStr S) (VStr T) instagram]).
Proof.
  assert (E : process_entry h (change_entry (in_messages [ig_message (VStr S) (VStr T)])) =
              process_entry h (change_entry (ig_message (VStr S) (VStr T))))
    by (apply branches_agree; reflexivity).
  split; [ exact E | ]. split; [ | apply ig_message_event ].
  unfold entry_events. rewrite E. apply ig_message_event.
Qed.

(** Claim C10.  The message the Instagram branch works on is
    [value.messages[0]] when that is there, else [value] itself when
    [value.from.id] is there, else nothing.  [messages[0]] is not there
    when [messages] is missing, is an empty array, or starts with an
    undefined element.  So a value with no first message and a
    [from.id] still yields an event (recipient [value.from.id]), while a
    value whose first message has no [from.id] yields none, whatever
    [value.from.id] is. *)
Theorem C10_fallback_to_value h change :
  igMessage_of change =
    (if truthy (first (read change "messages")) then first (read change "messages")
     else if truthy (read (read change "from") "id") then change else VNull) /\
  (forall rest,
     read change "messages" = VUndef \/
     read change "messages" = VArr [] \/
     read change "messages" = VArr (VUndef :: rest) ->
     truthy (first (read change "messages")) = false) /\
  (forall txt,
     txt = or (or (read change "text") (read (read change "message") "text")) (VStr "") ->
     truthy (first (read change "messages")) = false ->
     truthy (read (read change "from") "id") = true ->
     has_slice txt = true ->
     entry_events h (change_entry change) =
       [mkEvent (read (read change "from") "id") txt instagram]) /\
  (truthy (first (read change "messages")) = true ->
   truthy (read (read (first (read change "messages")) "from") "id") = false ->
   entry_events h (change_entry change) = []).
Proof.
  split; [ apply igMessage_of_cases | ].
  split; [ intros rest [-> | [-> | ->]]; reflexivity | ].
  split.
  - intros txt -> A F S. unfold entry_events.
    rewrite change_entry_instagram. cbv zeta.
    rewrite igMessage_of_cases, A, F, F, S. reflexivity.
  - intros A F. unfold entry_events.
    rewrite change_entry_instagram. cbv zeta.
    rewrite igMessage_of_cases, A, F. reflexivity.
Qed.

(** An empty [messages] array beside a [from.id] emits; a first message
    without [from.id] beside a [from.id] on the value does not. *)
Lemma C10_fallback_to_value_witness :
  entry_events resolves
    (change_entry (VObj [("messages", VArr []);
                         ("from", VObj [("id", VStr "u7")]); ("text", VStr "yo")])) =
    [mkEvent (VStr "u7") (VStr "yo") instagram] /\
  entry_events resolves
    (change_entry (VObj [("messages", VArr [VObj [("text", VStr "yo")]]);
                         ("from", VObj [("id", VStr "u7")])])) = [].
Proof.
  split.
  - apply (proj1 (proj2 (proj2
      (C10_fallback_to_value resolves
         (VObj [("messages", VArr []);
                ("from", VObj [("id", VStr "u7")]); ("text", VStr "yo")]))))
      (VStr "yo")); reflexivity.
  - apply (proj2 (proj2 (proj2
      (C10_fallback_to_value resolves
         (VObj [("messages", VArr [VObj [("text", VStr "yo")]]);
                ("from", VObj [("id", VStr "u7")])]))))); reflexivity.
Defined.

(** ** The two formats together (lines 67-110) *)

(** Claim C5, as stated, fails for an entry that carries both fields:
    the [changes] branch is consulted although [messaging] is there,
    and the entry yields a Messenger event and an Instagram event. *)
Lemma C5_entry_with_both_fields_two_events :
  entry_events resolves
    (VObj [("messaging", VArr [messenger_message (VStr "u1") (VObj [("text", VStr "hi")])]);
           ("changes", VArr [VObj [("value", ig_message (VStr "u2") (VStr "yo"))]])]) =
  [mkEvent (VStr "u1") (VStr "hi") messenger; mkEvent (VStr "u2") (VStr "yo") instagram].
Proof. reflexivity. Qed.

(** Claim C5 (amended).  The two formats are tested one after the
    other, each on its own field: an entry yields at most one Messenger
    event, and only if its [messaging] field is truthy, followed by at
    most one Instagram event, and only if its [changes] field is truthy.
    An entry with only one of the two fields therefore never yields
    both events; an entry with both can. *)
Theorem C5_each_format_on_its_own_field h entry :
  exists b1 b2 : bool,
    map on (entry_events h entry) =
      (if b1 then [messenger] else []) ++ (if b2 then [instagram] else []) /\
    (b1 = true -> truthy (read entry "messaging") = true) /\
    (b2 = true -> truthy (read entry "changes") = true).
Proof.
  destruct (messenger_events h entry) as (b1 & E1 & T1).
  destruct (instagram_events h entry) as (b2 & E2 & T2).
  rewrite process_entry_events, map_app, E1.
  destruct (completes (snd (handle_messenger h entry))).
  - exists b1, b2. rewrite E2. auto.
  - exists b1, false. repeat split; auto; discriminate.
Qed.

(** ** Unexpected input (lines 51-116) *)

(** Claim C6, as stated, fails for an entry that is not an object and
    for a message whose text is a number: the [TypeError] leaves the
    loop, so the well-formed entry that follows is never looked at, and
    an error is logged. *)
Lemma C6_bad_entry_drops_the_rest :
  normalize resolves
    (payload_of [messaging_entry [messenger_message (VStr "u1") (VObj [("text", VStr "hi")])]]) =
    [mkEvent (VStr "u1") (VStr "hi") messenger] /\
  normalize resolves
    (payload_of [VNull;
                 messaging_entry [messenger_message (VStr "u1") (VObj [("text", VStr "hi")])]]) =
    [] /\
  normalize resolves
    (payload_of [messaging_entry [messenger_message (VStr "u0") (VObj [("text", VNum 5)])];
                 messaging_entry [messenger_message (VStr "u1") (VObj [("text", VStr "hi")])]]) =
    [] /\
  logs (fst (receiveWebhook resolves
    (payload_of [VNull;
                 messaging_entry [messenger_message (VStr "u1") (VObj [("text", VStr "hi")])]]))) =
    [(Info, "Webhook received"); (Err, "Webhook processing error")].
Proof. repeat split; reflexivity. Qed.

(** The text handed on is the empty string for a falsy text, and the
    preview of the log record throws exactly for a truthy text that is
    neither a string nor an array. *)
Lemma has_slice_or_empty v :
  has_slice (or v (VStr "")) = negb (truthy v) || has_slice v.
Proof. unfold or. now destruct (truthy v). Qed.

(** Claim C6 (amended).
    - The controller never raises because of its input: for every body
      it completes normally, unless the handler was called and rejected
      with [null] or [undefined].
    - An entry that is an array, or an object whose [messaging] and
      [changes] fields are missing, null or empty arrays, yields no
      event and is passed over silently, the entries after it being
      processed as if it were not there.
    - A body whose [entry] field is missing, null or an empty array
      yields no event.
    - Not every malformed entry is passed over.  An entry that is
      neither an object nor an array raises a [TypeError]; so does a
      message that passes the presence tests and whose text is truthy
      but neither a string nor an array, in either format (a text that
      is falsy or a string or an array raises nothing: the handler is
      called).
    - Whatever raises inside the loop ends it: the entries after it have
      no effect; an error raised by the input is caught and logged, and
      the controller completes. *)
Theorem C6_never_raises_and_skips h :
  (forall body,
     snd (receiveWebhook h body) = Done tt \/
     exists p t pf,
       In (Call p t pf) (fst (receiveWebhook h body)) /\
       rejects_with_nothing (h p t pf) = true) /\
  ((forall items, process_entry h (VArr items) = ret tt) /\
   (forall f,
      missing_or_empty (read (VObj f) "messaging") = true ->
      missing_or_empty (read (VObj f) "changes") = true ->
      process_entry h (VObj f) = ret tt) /\
   (forall e rest, process_entry h e = ret tt -> for_each h (e :: rest) = for_each h rest)) /\
  (forall b,
     missing_or_empty (read (VObj b) "entry") = true ->
     normalize h (VObj b) = []) /\
  ((forall e, primitive e = true ->
      exists msg, process_entry h e = ([], Abrupt (Raised (TypeError msg)))) /\
   (forall f m txt,
      m = first (read (VObj f) "messaging") ->
      txt = read (read m "message") "text" ->
      truthy (read (VObj f) "messaging") = true ->
      truthy (read m "message") = true ->
      truthy (read (read m "sender") "id") = true ->
      handle_messenger h (VObj f) =
      if negb (truthy txt) || has_slice txt
      then ([Log Info "Messenger message received";
             Call (read (read m "sender") "id") (or txt (VStr "")) messenger],
            h (read (read m "sender") "id") (or txt (VStr "")) messenger)
      else ([], Abrupt (Raised (TypeError "text.slice is not a function")))) /\
   (forall f ig txt,
      ig = igMessage_of (read (first (read (VObj f) "changes")) "value") ->
      txt = or (read ig "text") (read (read ig "message") "text") ->
      truthy (read (VObj f) "changes") = true ->
      truthy (read (read ig "from") "id") = true ->
      handle_instagram h (VObj f) =
      if negb (truthy txt) || has_slice txt
      then ([Log Info "Instagram message received";
             Call (read (read ig "from") "id") (or txt (VStr "")) instagram],
            h (read (read ig "from") "id") (or txt (VStr "")) instagram)
      else ([], Abrupt (Raised (TypeError "text.slice is not a function"))))) /\
  (forall pre e post,
     completes (snd (process_entry h e)) = false ->
     receiveWebhook h (payload_of (pre ++ e :: post)) =
       receiveWebhook h (payload_of (pre ++ [e])) /\
     (forall err,
        snd (for_each h (pre ++ [e])) = Abrupt (Raised err) ->
        receiveWebhook h (payload_of (pre ++ e :: post)) =
        (SendStatus 200 :: Log Info "Webhook received" :: fst (for_each h (pre ++ [e])) ++
           [Log Err "Webhook processing error"],
         Done tt))).
Proof.
  split; [ apply receiveWebhook_origin | ].
  split; [ split; [ reflexivity | split; [ apply skip_entry | ] ] | ].
  { intros e rest E. cbn [for_each]. rewrite E. now rewrite bind_ret. }
  split.
  { intros b E. unfold normalize. now rewrite receiveWebhook_no_entries. }
  split; [ split; [ | split ] | ].
  - intros e P. destruct e; try discriminate P; eexists; reflexivity.
  - intros f m txt -> -> Hms Hm Hid.
    rewrite handle_messenger_obj. cbv zeta.
    now rewrite Hms, Hm, Hid, has_slice_or_empty.
  - intros f ig txt -> -> Hcs Hid.
    rewrite handle_instagram_obj. cbv zeta.
    now rewrite Hcs, Hid, has_slice_or_empty.
  - intros pre e post T.
    assert (T' : completes (snd (for_each h (pre ++ e :: post))) = false)
      by now apply for_each_throws.
    rewrite (receiveWebhook_thrown h (pre ++ e :: post) T').
    rewrite (for_each_stops h pre e post T) in *.
    rewrite <- (receiveWebhook_thrown h (pre ++ [e]) T').
    split; [ reflexivity | ].
    intros err E. rewrite (receiveWebhook_thrown h (pre ++ [e]) T'), E. reflexivity.
Qed.

Lemma C6_never_raises_and_skips_witness :
  for_each resolves
    [VObj [("id", VStr "page-1")];
     messaging_entry [messenger_message (VStr "u1") (VObj [("text", VStr "hi")])]] =
  for_each resolves
    [messaging_entry [messenger_message (VStr "u1") (VObj [("text", VStr "hi")])]] /\
  normalize resolves (VObj [("object", VStr "page")]) = [] /\
  receiveWebhook resolves
    (payload_of ([] ++ VNull ::
                 [messaging_entry [messenger_message (VStr "u1") (VObj [("text", VStr "hi")])]])) =
  receiveWebhook resolves (payload_of ([] ++ [VNull])).
Proof.
  destruct (C6_never_raises_and_skips resolves) as (_ & (_ & Skip & Next) & Empty & _ & Stop).
  split; [ | split ].
  - apply Next. apply Skip; reflexivity.
  - apply Empty. reflexivity.
  - apply (Stop [] VNull). reflexivity.
Defined.

(** ** verifyWebhook (lines 21-33) *)

Lemma strict_eq_str_spec v s : strict_eq_str v s = true <-> v = VStr s.
Proof.
  destruct v; simpl; try (split; [ discriminate | congruence ]).
  rewrite String.eqb_eq. split; congruence.
Qed.

Lemma verifyWebhook_accepts env query :
  read (VObj query) "hub.mode" = VStr "subscribe" ->
  read (VObj query) "hub.verify_token" = VStr (VERIFY_TOKEN env) ->
  verifyWebhook env query =
  ([Log Info "Webhook verification attempt"; Log Info "Webhook verified successfully"],
   mkResponse 200 "text/plain" (read (VObj query) "hub.challenge")).
Proof.
  intros Hm Ht. unfold verifyWebhook.
  rewrite (proj2 (strict_eq_str_spec _ _) Hm), (proj2 (strict_eq_str_spec _ _) Ht).
  reflexivity.
Qed.

Lemma verifyWebhook_rejects env query :
  read (VObj query) "hub.mode" <> VStr "subscribe" \/
  read (VObj query) "hub.verify_token" <> VStr (VERIFY_TOKEN env) ->
  verifyWebhook env query =
  ([Log Info "Webhook verification attempt"; Log Warn "Webhook verification failed"],
   mkResponse 403 "text/plain" (VStr "Forbidden")).
Proof.
  intros H. unfold verifyWebhook.
  destruct (strict_eq_str (read (VObj query) "hub.mode") "subscribe") eqn:Em;
    [ | reflexivity ].
  destruct (strict_eq_str (read (VObj query) "hub.verify_token") (VERIFY_TOKEN env)) eqn:Et;
    [ | reflexivity ].
  apply strict_eq_str_spec in Em, Et. destruct H as [H | H]; contradiction.
Qed.

Lemma verifyWebhook_only_logs env query :
  map (fun x => Log (fst x) (snd x)) (logs (fst (verifyWebhook env query))) =
  fst (verifyWebhook env query).
Proof. unfold verifyWebhook. now destruct (_ && _). Qed.

(** Claim C9.  When [hub.mode] is the string subscribe and
    [hub.verify_token] is the configured secret, the answer is status
    200 with [hub.challenge] as its body; for any other mode or token
    it is status 403.  The handler does nothing but log: the answer is
    a function of the three query parameters and the secret. *)
Theorem C9_verification_is_a_comparison env query :
  let mode := read (VObj query) "hub.mode" in
  let token := read (VObj query) "hub.verify_token" in
  let challenge := read (VObj query) "hub.challenge" in
  let r := verifyWebhook env query in
  (mode = VStr "subscribe" /\ token = VStr (VERIFY_TOKEN env) ->
   status (snd r) = 200 /\ sent (snd r) = challenge) /\
  (mode <> VStr "subscribe" \/ token <> VStr (VERIFY_TOKEN env) ->
   status (snd r) = 403) /\
  map (fun x => Log (fst x) (snd x)) (logs (fst r)) = fst r /\
  (forall query',
     read (VObj query') "hub.mode" = mode ->
     read (VObj query') "hub.verify_token" = token ->
     read (VObj query') "hub.challenge" = challenge ->
     snd (verifyWebhook env query') = snd r).
Proof.
  cbv zeta. split; [ | split; [ | split ] ].
  - intros [Hm Ht]. now rewrite verifyWebhook_accepts.
  - intros H. now rewrite verifyWebhook_rejects.
  - apply verifyWebhook_only_logs.
  - intros query' Hm Ht Hc. unfold verifyWebhook. now rewrite Hm, Ht, Hc.
Qed.

Lemma C9_verification_is_a_comparison_witness :
  status (snd (verifyWebhook (Some "s3cret")
                 [("hub.mode", VStr "subscribe"); ("hub.verify_token", VStr "s3cret");
                  ("hub.challenge", VStr "xyz")])) = 200 /\
  sent (snd (verifyWebhook (Some "s3cret")
               [("hub.mode", VStr "subscribe"); ("hub.verify_token", VStr "s3cret");
                ("hub.challenge", VStr "xyz")])) = VStr "xyz".
Proof.
  apply (proj1 (C9_verification_is_a_comparison (Some "s3cret")
           [("hub.mode", VStr "subscribe"); ("hub.verify_token", VStr "s3cret");
            ("hub.challenge", VStr "xyz")])).
  split; reflexivity.
Defined.

(** ** Further properties of the controller *)

(** X1.  Whatever the body and the handler, status 200 is the first
    thing the controller does, and it is sent exactly once: the provider
    is acknowledged before any entry is looked at. *)
Theorem receiveWebhook_acknowledges_first h body :
  exists w, fst (receiveWebhook h body) = SendStatus 200 :: w /\ statuses w = [].
Proof.
  destruct (receiveWebhook_shape h body) as (es & b & a & E & _ & Sb & _ & Sa & _).
  eexists. split; [ exact E | ].
  now rewrite !statuses_app, Sb, Sa, statuses_for_each.
Qed.

Lemma normalize_payload h es : normalize h (payload_of es) = calls (fst (for_each h es)).
Proof. unfold payload_of. now apply normalize_entries. Qed.

(** X2.  When no entry throws, the handler is called for the entries in
    payload order: the events of the payload are the events of its
    entries, one entry after the other. *)
Theorem events_follow_entry_order h es :
  forallb (fun e => completes (snd (process_entry h e))) es = true ->
  normalize h (payload_of es) = flat_map (entry_events h) es.
Proof.
  rewrite normalize_payload.
  induction es as [|e es IH]; intros A; [ reflexivity | ].
  cbn [forallb] in A. apply andb_true_iff in A. destruct A as [A1 A2].
  rewrite for_each_cons_events, A1. cbn [flat_map]. now rewrite IH.
Qed.

Lemma events_follow_entry_order_witness :
  normalize resolves
    (payload_of [messaging_entry [messenger_message (VStr "u1") (VObj [("text", VStr "hi")])];
                 change_entry (ig_message (VStr "u2") (VStr "yo"))]) =
  [mkEvent (VStr "u1") (VStr "hi") messenger; mkEvent (VStr "u2") (VStr "yo") instagram].
Proof.
  apply (events_follow_entry_order resolves
           [messaging_entry [messenger_message (VStr "u1") (VObj [("text", VStr "hi")])];
            change_entry (ig_message (VStr "u2") (VStr "yo"))]).
  reflexivity.
Defined.

(** X3.  An entry on which processing throws (a [TypeError], or a
    rejection of the handler) ends the loop: the entries after it change
    nothing.  The error is then logged and the controller completes,
    except when what was thrown is [null] or [undefined], which only a
    rejection of the handler can be: the [catch] block then throws
    reading [error.message], nothing is logged and the controller's
    promise rejects. *)
Theorem throw_ends_the_loop h pre e post :
  completes (snd (process_entry h e)) = false ->
  receiveWebhook h (payload_of (pre ++ e :: post)) =
    receiveWebhook h (payload_of (pre ++ [e])) /\
  receiveWebhook h (payload_of (pre ++ e :: post)) =
    (SendStatus 200 :: Log Info "Webhook received" :: fst (for_each h (pre ++ [e])) ++
       (if rejects_with_nothing (snd (for_each h (pre ++ [e]))) then []
        else [Log Err "Webhook processing error"]),
     if rejects_with_nothing (snd (for_each h (pre ++ [e])))
     then Abrupt (Raised (TypeError
                    "Cannot read properties of null or undefined (reading 'message')"))
     else Done tt) /\
  ((forall p t pf, rejects_with_nothing (h p t pf) = false) ->
   In (Log Err "Webhook processing error")
      (fst (receiveWebhook h (payload_of (pre ++ e :: post)))) /\
   snd (receiveWebhook h (payload_of (pre ++ e :: post))) = Done tt).
Proof.
  intros T.
  assert (T' : completes (snd (for_each h (pre ++ e :: post))) = false)
    by now apply for_each_throws.
  rewrite (receiveWebhook_thrown h (pre ++ e :: post) T').
  rewrite (for_each_stops h pre e post T) in *.
  split; [ now rewrite (receiveWebhook_thrown h (pre ++ [e]) T') | ].
  split; [ reflexivity | ].
  intros R. rewrite (for_each_reason h _ R). cbn [fst snd]. split; [ | reflexivity ].
  right. right. apply in_or_app. right. now left.
Qed.

Lemma throw_ends_the_loop_witness :
  receiveWebhook resolves
    (payload_of ([] ++ VNum 7 ::
                 [messaging_entry [messenger_message (VStr "u1") (VObj [("text", VStr "hi")])]])) =
  receiveWebhook resolves (payload_of ([] ++ [VNum 7])).
Proof.
  apply (throw_ends_the_loop resolves [] (VNum 7)
           [messaging_entry [messenger_message (VStr "u1") (VObj [("text", VStr "hi")])]]).
  reflexivity.
Defined.

(** With a handler that always rejects, an entry is either passed over
    or stops the loop after its one call. *)
Lemma rejecting_entry h e :
  (forall p t pf, completes (h p t pf) = false) ->
  entry_events h e = [] \/
  (List.length (entry_events h e) = 1 /\ completes (snd (process_entry h e)) = false).
Proof.
  intros R. unfold entry_events. rewrite fst_process_entry, snd_process_entry.
  destruct (handle_messenger_call h e) as [[E _] | (p & t & E & O & _)]; rewrite E.
  - cbn [app]. destruct (snd (handle_messenger h e)) as [[]|err]; cbn [completes]; [ | now left ].
    destruct (handle_instagram_call h e) as [[E' _] | (p' & t' & E' & O' & _)]; rewrite E';
      [ now left | right ].
    split; [ reflexivity | ]. rewrite O'. apply R.
  - right. rewrite O. specialize (R p t messenger).
    destruct (h p t messenger); [ discriminate R | ]. split; reflexivity.
Qed.

(** X4.  A handler that rejects every call is called at most once per
    payload, whatever the payload holds. *)
Theorem rejecting_handler_called_at_most_once h body :
  (forall p t pf, completes (h p t pf) = false) ->
  List.length (normalize h body) <= 1.
Proof.
  intros R. destruct (normalize_shape h body) as [es ->].
  induction es as [|e es IH]; [ cbn; lia | ].
  rewrite for_each_cons_events, length_app.
  destruct (rejecting_entry h e R) as [-> | [L ->]]; [ | cbn [List.length]; lia ].
  destruct (completes _); cbn [List.length]; lia.
Qed.

Lemma rejecting_handler_called_at_most_once_witness :
  List.length
    (normalize (fun _ _ _ => Abrupt (Raised (Error "handler failed")))
       (payload_of [messaging_entry [messenger_message (VStr "u1") (VObj [("text", VStr "hi")])];
                    change_entry (ig_message (VStr "u2") (VStr "yo"))])) <= 1.
Proof.
  apply (rejecting_handler_called_at_most_once (fun _ _ _ => Abrupt (Raised (Error "handler failed")))).
  reflexivity.
Defined.

Lemma for_each_congr h pre x y post :
  process_entry h x = process_entry h y ->
  for_each h (pre ++ x :: post) = for_each h (pre ++ y :: post).
Proof.
  intros E. induction pre as [|z pre IH]; cbn [app for_each]; [ now rewrite E | now rewrite IH ].
Qed.

(** X5.  For any message that does not itself list [messages], the
    shape with the message under [value.messages] and the shape with the
    message as [value] can replace each other anywhere in a payload
    without changing anything the controller does. *)
Theorem instagram_shapes_interchangeable h m pre post :
  truthy (first (read m "messages")) = false ->
  receiveWebhook h (payload_of (pre ++ change_entry (in_messages [m]) :: post)) =
  receiveWebhook h (payload_of (pre ++ change_entry m :: post)).
Proof.
  intros A. unfold payload_of.
  rewrite (receiveWebhook_entries h _ (pre ++ change_entry (in_messages [m]) :: post))
    by (reflexivity || now destruct pre).
  rewrite (receiveWebhook_entries h _ (pre ++ change_entry m :: post))
    by (reflexivity || now destruct pre).
  now rewrite (for_each_congr h pre _ (change_entry m) post (branches_agree h m A)).
Qed.

Lemma instagram_shapes_interchangeable_witness :
  receiveWebhook resolves
    (payload_of ([] ++ change_entry
                         (in_messages [VObj [("from", VObj [("id", VStr "u2")]);
                                             ("message", VObj [("text", VStr "yo")])]]) :: [])) =
  receiveWebhook resolves
    (payload_of ([] ++ change_entry
                         (VObj [("from", VObj [("id", VStr "u2")]);
                                ("message", VObj [("text", VStr "yo")])]) :: [])).
Proof.
  apply (instagram_shapes_interchangeable resolves
           (VObj [("from", VObj [("id", VStr "u2")]);
                  ("message", VObj [("text", VStr "yo")])]) [] []).
  reflexivity.
Defined.

Lemma entry_events_arguments h e ev :
  In ev (entry_events h e) ->
  truthy (recipientId ev) = true /\ has_slice (text ev) = true.
Proof.
  rewrite process_entry_events. intros H. apply in_app_or in H. destruct H as [H | H].
  - destruct (handle_messenger_call h e) as [[E _] | (p & t & E & _ & P & S)];
      rewrite E in H; cbn in H; [ contradiction | ].
    destruct H as [<- | []]. auto.
  - destruct (completes _); [ | contradiction ].
    destruct (handle_instagram_call h e) as [[E _] | (p & t & E & _ & P & S)];
      rewrite E in H; cbn in H; [ contradiction | ].
    destruct H as [<- | []]. auto.
Qed.

(** X6.  The handler is never called with a missing or empty sender id,
    and the text it gets is always a string (or, from a malformed
    payload, an array), never [undefined] or [null]. *)
Theorem handler_never_gets_empty_arguments h body ev :
  In ev (normalize h body) ->
  truthy (recipientId ev) = true /\ has_slice (text ev) = true.
Proof.
  destruct (normalize_shape h body) as [es ->].
  induction es as [|e es IH]; [ contradiction | ].
  rewrite for_each_cons_events. intros H. apply in_app_or in H. destruct H as [H | H].
  - now apply (entry_events_arguments h e).
  - destruct (completes _); [ auto | contradiction ].
Qed.

Lemma handler_never_gets_empty_arguments_witness :
  truthy (VStr "u1") = true /\ has_slice (VStr "") = true.
Proof.
  apply (handler_never_gets_empty_arguments resolves
           (payload_of [messaging_entry [messenger_message (VStr "u1") (VObj [])]])
           (mkEvent (VStr "u1") (VStr "") messenger)).
  left. reflexivity.
Defined.

Lemma VERIFY_TOKEN_not_empty env : VERIFY_TOKEN env <> "".
Proof.
  unfold VERIFY_TOKEN. destruct env as [s|]; [ | discriminate ].
  destruct (s =? "") eqn:E; [ discriminate | now apply String.eqb_neq ].
Qed.

(** X7.  When [VERIFY_TOKEN] is unset or empty, the token built into the
    source verifies. *)
Theorem unset_secret_accepts_the_default env query :
  env = None \/ env = Some "" ->
  read (VObj query) "hub.mode" = VStr "subscribe" ->
  read (VObj query) "hub.verify_token" = VStr "your-verify-token" ->
  status (snd (verifyWebhook env query)) = 200 /\
  sent (snd (verifyWebhook env query)) = read (VObj query) "hub.challenge".
Proof.
  intros E Hm Ht.
  assert (V : VERIFY_TOKEN env = "your-verify-token") by (destruct E as [-> | ->]; reflexivity).
  rewrite verifyWebhook_accepts; [ split; reflexivity | assumption | now rewrite V ].
Qed.

Lemma unset_secret_accepts_the_default_witness :
  status (snd (verifyWebhook None
                 [("hub.mode", VStr "subscribe");
                  ("hub.verify_token", VStr "your-verify-token");
                  ("hub.challenge", VStr "42")])) = 200 /\
  sent (snd (verifyWebhook None
               [("hub.mode", VStr "subscribe");
                ("hub.verify_token", VStr "your-verify-token");
                ("hub.challenge", VStr "42")])) = VStr "42".
Proof.
  apply (unset_secret_accepts_the_default None
           [("hub.mode", VStr "subscribe");
            ("hub.verify_token", VStr "your-verify-token");
            ("hub.challenge", VStr "42")]).
  - left. reflexivity.
  - reflexivity.
  - reflexivity.
Defined.

(** X8.  A request whose [hub.verify_token] is missing, empty or not a
    string is answered 403 whatever the environment: the secret compared
    with is never empty. *)
Theorem missing_token_is_rejected env query :
  (forall s, read (VObj query) "hub.verify_token" = VStr s -> s = "") ->
  verifyWebhook env query =
  ([Log Info "Webhook verification attempt"; Log Warn "Webhook verification failed"],
   mkResponse 403 "text/plain" (VStr "Forbidden")).
Proof.
  intros H. apply verifyWebhook_rejects. right. intros E.
  apply (VERIFY_TOKEN_not_empty env). exact (H _ E).
Qed.

Lemma missing_token_is_rejected_witness :
  verifyWebhook None [("hub.mode", VStr "subscribe"); ("hub.challenge", VStr "42")] =
  ([Log Info "Webhook verification attempt"; Log Warn "Webhook verification failed"],
   mkResponse 403 "text/plain" (VStr "Forbidden")).
Proof.
  apply (missing_token_is_rejected None
           [("hub.mode", VStr "subscribe"); ("hub.challenge", VStr "42")]).
  intros s E. discriminate E.
Defined.

Lemma messaging_entry_messenger h ms :
  process_entry h (messaging_entry ms) =
  let m := first (VArr ms) in
  let psid := read (read m "sender") "id" in
  let txt := or (read (read m "message") "text") (VStr "") in
  if truthy (read m "message") && truthy psid then
    if has_slice txt
    then ([Log Info "Messenger message received"; Call psid txt messenger],
          h psid txt messenger)
    else ([], Abrupt (Raised (TypeError "text.slice is not a function")))
  else ([], Done tt).
Proof.
  unfold process_entry, messaging_entry.
  rewrite handle_messenger_obj, handle_instagram_obj. cbv zeta.
  change (read (VObj [("id", VStr "page-1"); ("time", VNum 0); ("messaging", VArr ms)])
               "messaging") with (VArr ms).
  change (read (VObj [("id", VStr "page-1"); ("time", VNum 0); ("messaging", VArr ms)])
               "changes") with VUndef.
  cbn [truthy andb].
  destruct (truthy (read (first (VArr ms)) "message") && _); [ | reflexivity ].
  destruct (has_slice _); [ | reflexivity ].
  unfold bind. now destruct (h _ _ messenger) as [[]|err].
Qed.

(** X9.  Only the first element counts: the rest of a [messaging] array
    and the rest of a [messages] array change nothing. *)
Theorem only_the_first_element_is_processed h m more v vs :
  process_entry h (messaging_entry (m :: more)) = process_entry h (messaging_entry [m]) /\
  process_entry h (change_entry (in_messages (v :: vs))) =
    process_entry h (change_entry (in_messages [v])).
Proof.
  split.
  - now rewrite !messaging_entry_messenger.
  - rewrite !change_entry_instagram. cbv zeta. now rewrite !igMessage_of_cases.
Qed.

(** X10.  The text of an Instagram event is [text] when that is not
    empty, else [message.text]. *)
Theorem instagram_text_precedence h S t1 t2 :
  S <> "" ->
  entry_events h
    (change_entry (VObj [("from", VObj [("id", VStr S)]); ("text", VStr t1);
                         ("message", VObj [("text", VStr t2)])])) =
  [mkEvent (VStr S) (VStr (if t1 =? "" then t2 else t1)) instagram].
Proof.
  intros N. unfold entry_events. rewrite change_entry_instagram. cbv zeta.
  rewrite igMessage_of_cases.
  set (v := VObj [("from", VObj [("id", VStr S)]); ("text", VStr t1);
                  ("message", VObj [("text", VStr t2)])]).
  change (read v "messages") with VUndef.
  change (read (read v "from") "id") with (VStr S).
  cbn [first]. change (truthy VUndef) with false. cbv iota.
  rewrite (proj2 (truthy_str S) N).
  change (read (read v "from") "id") with (VStr S).
  change (read v "text") with (VStr t1).
  change (read (read v "message") "text") with (VStr t2).
  rewrite (proj2 (truthy_str S) N).
  assert (T : or (or (VStr t1) (VStr t2)) (VStr "") = VStr (if t1 =? "" then t2 else t1)).
  { unfold or. cbn [truthy]. destruct (t1 =? "") eqn:E1; cbn [negb truthy].
    - destruct (t2 =? "") eqn:E2; cbn [negb]; [ | reflexivity ].
      apply String.eqb_eq in E2. now subst.
    - now rewrite E1. }
  rewrite T. reflexivity.
Qed.

Lemma instagram_text_precedence_witness :
  entry_events resolves
    (change_entry (VObj [("from", VObj [("id", VStr "u2")]); ("text", VStr "");
                         ("message", VObj [("text", VStr "yo")])])) =
  [mkEvent (VStr "u2") (VStr "yo") instagram].
Proof. apply (instagram_text_precedence resolves "u2" "" "yo"). discriminate. Defined.

End WebhookProofs.

(* ===================================================================== *)
(** * Properties of the delivery client                                   *)
(* ===================================================================== *)

Module MetaServiceProofs.
Import JS MetaService.

Lemma present_some id : id <> "" -> present (Some id) = true.
Proof. intros N. simpl. apply negb_true_iff. now apply String.eqb_neq. Qed.

Lemma endpoint_instagram id :
  id <> "" -> endpoint (Some id) = (instagramBaseUrl ++ "/" ++ id ++ "/messages")%string.
Proof. intros N. unfold endpoint. now rewrite present_some. Qed.

Lemma endpoint_messenger account :
  present account = false -> endpoint account = (baseUrl ++ "/me/messages")%string.
Proof. intros P. unfold endpoint. destruct account; [ now rewrite P | reflexivity ]. Qed.

(** Claim C8.  The request goes to the Instagram base URL scoped to the
    account id when [instagramAccountId] is given (defined and not
    empty), and to the self-scoped Messenger endpoint otherwise; two
    calls with the same [instagramAccountId] go to the same URL whatever
    their other fields; the body is the recipient wrapped as an object
    with [id] and the message wrapped as an object with [text]. *)
Theorem C8_endpoint_follows_account_id params :
  (forall id,
     instagramAccountId params = Some id -> id <> "" ->
     url (sendMessage_request params) =
       (instagramBaseUrl ++ "/" ++ id ++ "/messages")%string) /\
  (present (instagramAccountId params) = false ->
   url (sendMessage_request params) = (baseUrl ++ "/me/messages")%string) /\
  (forall params',
     instagramAccountId params' = instagramAccountId params ->
     url (sendMessage_request params') = url (sendMessage_request params)) /\
  payload (sendMessage_request params) =
    VObj [("recipient", VObj [("id", VStr (psid params))]);
          ("message", VObj [("text", VStr (text params))])].
Proof.
  cbn [sendMessage_request url payload]. repeat split.
  - intros id -> N. now apply endpoint_instagram.
  - apply endpoint_messenger.
  - now intros params' ->.
Qed.

Lemma C8_endpoint_follows_account_id_witness :
  url (sendMessage_request (mkParams "u1" "hi" "tok" (Some "ig9"))) =
    "https://graph.instagram.com/v22.0/ig9/messages" /\
  url (sendMessage_request (mkParams "u1" "hi" "tok" None)) =
    "https://graph.facebook.com/v22.0/me/messages".
Proof.
  split.
  - apply (proj1 (C8_endpoint_follows_account_id (mkParams "u1" "hi" "tok" (Some "ig9")))
             "ig9"); [ reflexivity | discriminate ].
  - apply (proj1 (proj2 (C8_endpoint_follows_account_id (mkParams "u1" "hi" "tok" None)))).
    reflexivity.
Defined.

(** ** The Graph API helpers *)

(** X11.  [getInstagramAccountId] never throws, however the request ends
    and whatever the answer holds; it resolves to [null] or to a truthy
    id, never to [undefined] or an empty id. *)
Theorem getInstagramAccountId_never_throws r :
  exists v,
    snd (getInstagramAccountId_settle r) = Normal v /\
    (v = VNull \/ truthy v = true).
Proof.
  unfold getInstagramAccountId_settle, account_id_of.
  destruct r as [data|e]; [ | exists VNull; auto ].
  destruct (dot data "instagram_business_account") as [account|e]; [ | exists VNull; auto ].
  unfold or. destruct (truthy (opt account "id")) eqn:T.
  - exists (opt account "id"). auto.
  - exists VNull. auto.
Qed.

Lemma append_length a b : String.length (a ++ b) = String.length a + String.length b.
Proof. induction a as [|c a IH]; cbn; [ reflexivity | now rewrite IH ]. Qed.

Lemma append_cancel_r a b s : (a ++ s = b ++ s)%string -> a = b.
Proof.
  revert b. induction a as [|c a IH]; intros [|d b] E; cbn in E.
  - reflexivity.
  - apply (f_equal String.length) in E. cbn in E. rewrite append_length in E. lia.
  - apply (f_equal String.length) in E. cbn in E. rewrite append_length in E. lia.
  - injection E as -> E. f_equal. now apply IH.
Qed.

(** X12.  Two sends go to the same URL only if both or neither name an
    Instagram account, and in the first case only if they name the same
    account. *)
Theorem endpoint_separates_accounts a b :
  endpoint a = endpoint b ->
  present a = present b /\ (present a = true -> a = b).
Proof.
  unfold endpoint.
  destruct a as [x|], b as [y|]; cbn [present];
    try destruct (negb (x =? "")) eqn:X; try destruct (negb (y =? "")) eqn:Y;
    intros E; try discriminate E; split; try reflexivity; try discriminate; intros _.
  unfold instagramBaseUrl in E. cbn in E.
  f_equal. eapply append_cancel_r. injection E as E. exact E.
Qed.

Lemma endpoint_separates_accounts_witness :
  present (Some "ig9") = present (Some "ig9") /\
  (present (Some "ig9") = true -> Some "ig9" = Some "ig9").
Proof. apply (endpoint_separates_accounts (Some "ig9") (Some "ig9")). reflexivity. Defined.

End MetaServiceProofs.

(* ===================================================================== *)
(** * Properties of the delivery queue                                    *)
(* ===================================================================== *)

Module ProcessorProofs.
Import JS MetaService MetaServiceProofs Processor.



Lemma enqueued_app t u : enqueued (t ++ u) = enqueued t ++ enqueued u.
Proof. induction t as [|[] t IH]; simpl; rewrite ?IH; reflexivity. Qed.

Lemma invoked_app t u : invoked (t ++ u) = invoked t ++ invoked u.
Proof. induction t as [|[] t IH]; simpl; rewrite ?IH; reflexivity. Qed.

Lemma posted_app t u : posted (t ++ u) = posted t ++ posted u.
Proof. induction t as [|[] t IH]; simpl; rewrite ?IH; reflexivity. Qed.

Lemma serial_from_app t u b :
  serial_from b (t ++ u) = serial_from b t && serial_from (busy_after b t) u.
Proof.
  revert b. induction t as [|[] t IH]; intros b; simpl; rewrite ?IH; auto.
  - now rewrite andb_assoc.
  - now rewrite andb_assoc.
Qed.

Lemma busy_after_app t u b : busy_after b (t ++ u) = busy_after (busy_after b t) u.
Proof. revert b. induction t as [|[] t IH]; intros b; simpl; auto. Qed.

Lemma paced_from_app ms t u st :
  paced_from ms st (t ++ u) = paced_from ms st t && paced_from ms (pace_after ms st t) u.
Proof.
  revert st. induction t as [|[] t IH]; intros st; simpl; rewrite ?IH; auto.
  - now rewrite andb_assoc.
  - destruct (_ && _); auto.
  - destruct (Nat.eqb st 2); auto.
Qed.

Lemma pace_after_app ms t u st :
  pace_after ms st (t ++ u) = pace_after ms (pace_after ms st t) u.
Proof.
  revert st. induction t as [|[] t IH]; intros st; simpl; auto.
  - destruct (_ && _); auto.
  - destruct (Nat.eqb st 2); auto.
Qed.

Lemma quiet_enqueued t : quiet t = true -> enqueued t = [].
Proof. induction t as [|[] t IH]; simpl; try discriminate; auto. Qed.

Lemma quiet_invoked t : quiet t = true -> invoked t = [].
Proof. induction t as [|[] t IH]; simpl; try discriminate; auto. Qed.

Lemma quiet_serial t b : quiet t = true -> serial_from b t = true.
Proof. induction t as [|[] t IH]; simpl; try discriminate; auto. Qed.

Lemma quiet_busy t b : quiet t = true -> busy_after b t = b.
Proof. induction t as [|[] t IH]; simpl; try discriminate; auto. Qed.

Lemma quiet_paced ms t st : quiet t = true -> paced_from ms st t = true.
Proof. induction t as [|[] t IH]; simpl; try discriminate; auto. Qed.

Lemma quiet_pace ms t st : quiet t = true -> pace_after ms st t = st.
Proof. induction t as [|[] t IH]; simpl; try discriminate; auto. Qed.

Lemma begin_quiet token j : quiet (fst (processMetaMessage_begin token j)) = true.
Proof.
  unfold processMetaMessage_begin.
  destruct token as [tok|]; [ destruct (present _) | ]; reflexivity.
Qed.

Lemma settle_quiet p r : quiet (fst (processMetaMessage_settle p r)) = true.
Proof. destruct p, r; reflexivity. Qed.


(** ** One turn of the loop *)

Lemma while_loop_cons token j rest pr :
  while_loop token (mkQueue (j :: rest) pr) =
  mkRun (mkQueue rest pr) (Invoked j :: fst (processMetaMessage_begin token j))
        (Some (AwaitingProcess j (snd (processMetaMessage_begin token j)))) None.
Proof.
  unfold while_loop. cbn [queue processing].
  now destruct (processMetaMessage_begin token j).
Qed.

Lemma while_loop_nil token pr :
  while_loop token (mkQueue [] pr) = mkRun (mkQueue [] false) [] None None.
Proof. reflexivity. Qed.

Ltac quiet_facts :=
  repeat match goal with
  | Q : quiet ?e = true |- context [enqueued ?e] => rewrite (quiet_enqueued e Q)
  | Q : quiet ?e = true |- context [invoked ?e] => rewrite (quiet_invoked e Q)
  | Q : quiet ?e = true |- context [serial_from ?b ?e] => rewrite (quiet_serial e b Q)
  | Q : quiet ?e = true |- context [busy_after ?b ?e] => rewrite (quiet_busy e b Q)
  end.

Ltac trace_facts :=
  repeat first
    [ progress cbn [enqueued invoked serial_from busy_after app negb andb]
    | progress quiet_facts
    | rewrite enqueued_app
    | rewrite invoked_app
    | rewrite serial_from_app
    | rewrite busy_after_app
    | rewrite app_nil_r ].

Ltac name_begin token j Q :=
  pose proof (begin_quiet token j) as Q;
  generalize dependent (fst (processMetaMessage_begin token j));
  generalize (snd (processMetaMessage_begin token j)).

(** ** The invariant *)

Lemma Inv_initial : Inv initial.
Proof. repeat split. Qed.

Lemma exec_preserves_Inv token a s : Inv s -> Inv (exec token a s).
Proof.
  destruct s as [[q pr] ls rj tr]. unfold Inv, serial.
  cbn [rejected trace object loops queue processing].
  intros (Hr & He & Hs & Hl). subst rj.
  destruct ls as [|c [|c' ls]]; [ | | destruct c; contradiction ].
  - (* idle *)
    destruct Hl as [Hq Hb]. injection Hq as -> ->. rewrite app_nil_r in He.
    destruct a as [j|i r|i]; [ | destruct i; simpl; rewrite ?app_nil_r; auto .. ].
    unfold exec, add, processQueue.
    cbn [object loops queue processing app negb orb List.length Nat.eqb].
    rewrite while_loop_cons. unfold commit.
    cbn [rejected trace object loops fields seen suspended rejection opt_list app queue processing].
    name_begin token j Q. intros p effs Q.
    trace_facts. rewrite He, Hs, Hb. trace_facts. repeat split; auto.
  - destruct a as [j|i r|i].
    + (* enqueue while a loop is suspended *)
      assert (Hp : pr = true) by (destruct c; tauto). subst pr.
      unfold exec, add. cbn [object loops queue processing negb]. unfold commit.
      cbn [rejected trace object loops fields seen suspended rejection opt_list app queue processing].
      trace_facts. rewrite He, Hs, <- app_assoc.
      destruct c; destruct Hl as [_ Hb]; rewrite Hb; repeat split; auto.
    + destruct i as [|i]; [ | destruct i; simpl; destruct c; auto ].
      destruct c as [j p|]; [ | simpl; auto ].
      destruct Hl as [Hp Hb]. subst pr.
      unfold exec. cbn [nth_error loops object firstn skipn].
      destruct (processMetaMessage_settle p r) as [effs o] eqn:Eo.
      assert (Qe : quiet effs = true).
      { pose proof (settle_quiet p r) as Q. now rewrite Eo in Q. }
      destruct o as [res|err].
      * unfold after_process, commit.
        cbn [rejected trace object loops fields seen suspended rejection opt_list app queue processing].
        trace_facts. rewrite He, Hs, Hb. trace_facts. repeat split; auto.
      * unfold after_process. destruct q as [|j' rest].
        -- rewrite while_loop_nil. unfold commit.
           cbn [rejected trace object loops fields seen suspended rejection opt_list app queue processing].
           trace_facts. rewrite He, Hs, Hb. trace_facts. repeat split; auto.
        -- rewrite while_loop_cons. unfold commit.
           cbn [rejected trace object loops fields seen suspended rejection opt_list app queue processing].
           name_begin token j' Q. intros p' effs' Q.
           trace_facts. rewrite He, Hs, Hb. trace_facts.
           rewrite <- app_assoc. repeat split; auto.
    + destruct i as [|i]; [ | destruct i; simpl; destruct c; auto ].
      destruct c as [j p|]; [ simpl; auto | ].
      destruct Hl as [Hp Hb]. subst pr.
      unfold exec, after_timer. cbn [nth_error loops object firstn skipn].
      destruct q as [|j' rest].
      * rewrite while_loop_nil. unfold commit.
        cbn [rejected trace object loops fields seen suspended rejection opt_list app queue processing].
        trace_facts. rewrite He, Hs, Hb. trace_facts. repeat split; auto.
      * rewrite while_loop_cons. unfold commit.
        cbn [rejected trace object loops fields seen suspended rejection opt_list app queue processing].
        name_begin token j' Q. intros p' effs' Q.
        trace_facts. rewrite He, Hs, Hb. trace_facts.
        rewrite <- app_assoc. repeat split; auto.
Qed.


Lemma execs_preserve_Inv token acts s : Inv s -> Inv (execs token acts s).
Proof.
  revert s. induction acts as [|a acts IH]; intros s I; [ exact I | ].
  apply IH. now apply exec_preserves_Inv.
Qed.

Lemma reachable_Inv token s : reachable token s -> Inv s.
Proof. intros [acts ->]. apply execs_preserve_Inv, Inv_initial. Qed.

Lemma while_loop_enqueued token q : enqueued (seen (while_loop token q)) = [].
Proof.
  destruct q as [[|j rest] pr]; [ reflexivity | ].
  rewrite while_loop_cons. cbn [seen enqueued].
  apply quiet_enqueued, begin_quiet.
Qed.

Lemma exec_enqueued token a s :
  enqueued (trace (exec token a s)) = enqueued (trace s) ++ added [a].
Proof.
  destruct a as [j|i r|i]; cbn [added]; unfold exec.
  - unfold commit, add, processQueue. cbn [trace queue processing].
    destruct (processing (object s)); cbn [negb orb seen app trace].
    + now rewrite enqueued_app.
    + destruct (Nat.eqb _ 0); cbn [seen]; rewrite enqueued_app; cbn [app enqueued];
        rewrite ?while_loop_enqueued; reflexivity.
  - rewrite app_nil_r.
    destruct (nth_error (loops s) i) as [[j p|]|]; try reflexivity.
    pose proof (settle_quiet p r) as Q.
    destruct (processMetaMessage_settle p r) as [effs [res|err]]; cbn [fst] in Q;
      unfold commit, after_process; cbn [trace seen];
      rewrite !enqueued_app, (quiet_enqueued effs Q); cbn [enqueued app];
      rewrite ?while_loop_enqueued, ?app_nil_r; reflexivity.
  - rewrite app_nil_r.
    destruct (nth_error (loops s) i) as [[j p|]|]; try reflexivity.
    unfold commit, after_timer; cbn [trace seen app].
    rewrite enqueued_app. cbn [enqueued]. now rewrite while_loop_enqueued, app_nil_r.
Qed.

Lemma execs_enqueued token acts s :
  enqueued (trace (execs token acts s)) = enqueued (trace s) ++ added acts.
Proof.
  revert s. induction acts as [|a acts IH]; intros s.
  - cbn. now rewrite app_nil_r.
  - change (execs token (a :: acts) s) with (execs token acts (exec token a s)).
    rewrite IH, exec_enqueued, <- app_assoc. f_equal.
    destruct a; reflexivity.
Qed.

(** Resuming the suspended activation brings the queue closer to idle. *)
Lemma resume_decreases token s r :
  Inv s -> loops s <> [] ->
  remaining (exec token (match loops s with
                         | AwaitingTimer :: _ => Fire 0
                         | _ => Settle 0 r
                         end) s) < remaining s.
Proof.
  destruct s as [[q pr] ls rj tr]. unfold Inv, remaining.
  cbn [rejected trace object loops queue processing].
  intros (_ & _ & _ & Hl) N.
  destruct ls as [|c [|c' ls]]; [ congruence | | destruct c; contradiction ].
  destruct c as [j p|]; unfold exec; cbn [nth_error loops object firstn skipn].
  - destruct (processMetaMessage_settle p r) as [effs [res|err]].
    + unfold commit, after_process. cbn [object loops fields suspended opt_list app queue]. lia.
    + unfold after_process. destruct q as [|j' rest].
      * rewrite while_loop_nil. unfold commit.
        cbn [object loops fields suspended opt_list app queue List.length]. lia.
      * rewrite while_loop_cons. unfold commit.
        cbn [object loops fields suspended opt_list app queue List.length]. lia.
  - unfold after_timer. destruct q as [|j' rest].
    + rewrite while_loop_nil. unfold commit.
      cbn [object loops fields suspended opt_list app queue List.length]. lia.
    + rewrite while_loop_cons. unfold commit.
      cbn [object loops fields suspended opt_list app queue List.length]. lia.
Qed.

Lemma drain_preserves_Inv token fuel results s :
  Inv s -> Inv (drain token fuel results s).
Proof.
  revert results s. induction fuel as [|fuel IH]; intros results s I; [ exact I | ].
  cbn [drain]. destruct (loops s) as [|[j p|] ls]; [ exact I | | ];
    apply IH; now apply exec_preserves_Inv.
Qed.

Lemma drain_enqueued token fuel results s :
  enqueued (trace (drain token fuel results s)) = enqueued (trace s).
Proof.
  revert results s. induction fuel as [|fuel IH]; intros results s; [ reflexivity | ].
  cbn [drain]. destruct (loops s) as [|[j p|] ls]; [ reflexivity | | ];
    rewrite IH, exec_enqueued; cbn [added]; now rewrite app_nil_r.
Qed.

Lemma drain_reaches_idle token fuel results s :
  Inv s -> remaining s <= fuel -> loops (drain token fuel results s) = [].
Proof.
  revert results s. induction fuel as [|fuel IH]; intros results s I B.
  - cbn [drain]. unfold remaining in B. destruct (loops s) as [|[j p|] ls]; [ reflexivity | lia | lia ].
  - cbn [drain]. destruct (loops s) as [|c ls] eqn:L; [ exact L | ].
    pose proof (resume_decreases token s (results 0) I) as D. rewrite L in D.
    specialize (D ltac:(discriminate)).
    destruct c as [j p|]; apply IH; try (now apply exec_preserves_Inv); lia.
Qed.

Lemma Inv_idle s :
  Inv s -> loops s = [] ->
  object s = mkQueue [] false /\ invoked (trace s) = enqueued (trace s).
Proof.
  intros (_ & He & _ & Hl) L. rewrite L in Hl. destruct Hl as [Hq _].
  rewrite Hq in He. cbn [queue] in He. rewrite app_nil_r in He. auto.
Qed.

Lemma Inv_one_loop s : Inv s -> List.length (loops s) <= 1.
Proof.
  intros (_ & _ & _ & Hl).
  destruct (loops s) as [|c [|c' ls]]; cbn; try lia. destruct c; contradiction.
Qed.

Lemma Inv_queue_bound s :
  Inv s -> remaining s <= 2 * List.length (enqueued (trace s)) + 2.
Proof.
  intros (_ & He & _ & Hl). unfold remaining. rewrite He, length_app.
  destruct (loops s) as [|[|] ls]; lia.
Qed.

Lemma added_length acts : List.length (added acts) <= List.length acts.
Proof. induction acts as [|[] acts IH]; cbn; lia. Qed.


Lemma add_while_processing token j s :
  processing (object s) = true ->
  exec token (Add j) s =
  mkSystem (mkQueue (queue (object s) ++ [j]) true) (loops s) (rejected s)
           (trace s ++ [Enqueued j]).
Proof.
  intros P. unfold exec, add. cbn [processing queue]. rewrite P. cbn [negb].
  unfold commit. cbn [fields suspended rejection seen opt_list app].
  now rewrite !app_nil_r.
Qed.

Lemma add_while_idle token j s :
  Inv s -> processing (object s) = false ->
  exec token (Add j) s =
  mkSystem (mkQueue [] true)
           [AwaitingProcess j (snd (processMetaMessage_begin token j))]
           (rejected s)
           (trace s ++ Enqueued j :: Invoked j :: fst (processMetaMessage_begin token j)).
Proof.
  intros (_ & _ & _ & Hl) P.
  destruct (loops s) as [|c [|c' ls]] eqn:L; [ | | destruct c; contradiction ].
  - destruct Hl as [Hq _]. unfold exec, add, processQueue. rewrite Hq.
    cbn [processing queue negb orb app List.length Nat.eqb].
    rewrite while_loop_cons. unfold commit.
    cbn [fields suspended rejection seen opt_list app]. rewrite L.
    now rewrite !app_nil_r.
  - destruct c; destruct Hl as [Hp _]; congruence.
Qed.

Lemma settle_failed p pm msg :
  exists e, snd (processMetaMessage_settle p (Failed pm msg)) = Throw e.
Proof. destruct p; eexists; reflexivity. Qed.

Lemma failed_settle_step token s j p pm msg :
  loops s = [AwaitingProcess j p] ->
  exec token (Settle 0 (Failed pm msg)) s =
  let r := while_loop token (object s) in
  mkSystem (fields r) (opt_list (suspended r)) (rejected s ++ opt_list (rejection r))
    (trace s ++ fst (processMetaMessage_settle p (Failed pm msg)) ++
       Settled j false :: Logged Webhook.Err "Failed to process queued message" :: seen r).
Proof.
  intros L. unfold exec. rewrite L. cbn [nth_error firstn skipn].
  destruct (settle_failed p pm msg) as [e E].
  destruct (processMetaMessage_settle p (Failed pm msg)) as [effs o]. cbn [snd fst] in *.
  subst o. unfold after_process, commit.
  cbn [fields suspended rejection seen app]. now rewrite app_nil_r.
Qed.

(** Claim C7.  When the send for the item being processed fails, the
    activation of the loop does not reject and [add] never does, so
    nothing reaches an enqueuer; the failure is logged; the next queued
    item, if there is one, is taken off the queue and invoked at once;
    the failed item is not invoked again and nothing is put back on the
    queue. *)
Theorem C7_failed_send_is_swallowed token acts j p pm msg :
  let s := execs token acts initial in
  let s' := exec token (Settle 0 (Failed pm msg)) s in
  loops s = [AwaitingProcess j p] ->
  rejected s' = [] /\
  (forall j' q, rejection (add token j' q) = None) /\
  (exists effs trail,
     trace s' = trace s ++ effs ++
       Settled j false :: Logged Webhook.Err "Failed to process queued message" :: trail /\
     quiet effs = true) /\
  invoked (trace s') = invoked (trace s) ++ firstn 1 (queue (object s)) /\
  enqueued (trace s') = enqueued (trace s) /\
  queue (object s') = tl (queue (object s)) /\
  loops s' = match queue (object s) with
             | [] => []
             | j' :: _ => [AwaitingProcess j' (snd (processMetaMessage_begin token j'))]
             end.
Proof.
  cbv zeta. intros L.
  set (s := execs token acts initial) in *.
  assert (I : Inv s) by (apply (reachable_Inv token); now exists acts).
  assert (I' : Inv (exec token (Settle 0 (Failed pm msg)) s)) by now apply exec_preserves_Inv.
  split; [ apply I' | ].
  split; [ intros j' q; unfold add; now destruct (negb _) | ].
  rewrite (failed_settle_step token s j p pm msg L). cbv zeta.
  cbn [trace object loops].
  pose proof (settle_quiet p (Failed pm msg)) as Q.
  split; [ eexists _, _; split; [ reflexivity | exact Q ] | ].
  destruct (object s) as [[|j' rest] pr].
  - rewrite while_loop_nil. cbn [fields seen suspended opt_list queue firstn tl].
    trace_facts. repeat split; auto.
  - rewrite while_loop_cons. cbn [fields seen suspended opt_list queue firstn tl].
    name_begin token j' Q'. intros p' effs' Q'.
    trace_facts. repeat split; auto.
Qed.

(** Two jobs are enqueued and the first send times out: the second job
    is invoked, the first is not invoked again. *)
Lemma C7_failed_send_is_swallowed_witness :
  invoked (trace (execs (Some "tok")
                    [Add (mkJob None "u1" "hi" None None);
                     Add (mkJob None "u2" "yo" None (Some "ig9"));
                     Settle 0 (Failed None "timeout")] initial)) =
  [mkJob None "u1" "hi" None None; mkJob None "u2" "yo" None (Some "ig9")].
Proof.
  pose proof (C7_failed_send_is_swallowed (Some "tok")
                [Add (mkJob None "u1" "hi" None None);
                 Add (mkJob None "u2" "yo" None (Some "ig9"))]
                (mkJob None "u1" "hi" None None)
                (AwaitingPost (sendMessage_request
                                 (params_of "tok" (mkJob None "u1" "hi" None None))))
                None "timeout" eq_refl) as H.
  exact (proj1 (proj2 (proj2 (proj2 H)))).
Defined.

(** ** Requests *)

Lemma begin_with_token tok j :
  tok <> "" ->
  processMetaMessage_begin (Some tok) j =
  ([Logged Webhook.Info "Processing Meta API job";
    Posted (sendMessage_request (params_of tok j))],
   AwaitingPost (sendMessage_request (params_of tok j))).
Proof. intros N. unfold processMetaMessage_begin. now rewrite present_some. Qed.

Lemma begin_without_token token j :
  present token = false ->
  processMetaMessage_begin token j =
  ([Logged Webhook.Info "Processing Meta API job"; Logged Webhook.Err "Meta API job failed"],
   Rejected (Error "Meta access token not configured")).
Proof.
  intros P. unfold processMetaMessage_begin.
  destruct token; [ now rewrite P | reflexivity ].
Qed.

Lemma settle_posted p r : posted (fst (processMetaMessage_settle p r)) = [].
Proof. destruct p, r; reflexivity. Qed.

(** What one step adds to the trace. *)
Lemma exec_extends token a s :
  exists chunk,
    trace (exec token a s) = trace s ++ chunk /\
    (forall tok, token = Some tok -> tok <> "" ->
       posted chunk = map (fun j => sendMessage_request (params_of tok j)) (invoked chunk)) /\
    (present token = false -> posted chunk = []).
Proof.
  assert (W : forall q,
    (forall tok, token = Some tok -> tok <> "" ->
       posted (seen (while_loop token q)) =
       map (fun j => sendMessage_request (params_of tok j)) (invoked (seen (while_loop token q)))) /\
    (present token = false -> posted (seen (while_loop token q)) = [])).
  { intros [[|j rest] pr]; [ split; reflexivity | ].
    rewrite while_loop_cons. cbn [seen]. split.
    - intros tok -> N. now rewrite begin_with_token.
    - intros P. now rewrite begin_without_token. }
  destruct a as [j|i r|i]; unfold exec, commit; cbn [trace].
  - unfold add, processQueue. cbn [queue processing].
    destruct (processing (object s)); cbn [negb orb].
    + eexists. split; [ reflexivity | split; reflexivity ].
    + destruct (Nat.eqb _ 0).
      * eexists. split; [ reflexivity | split; reflexivity ].
      * eexists. split; [ reflexivity | ]. cbn [seen app posted invoked map].
        destruct (W (mkQueue (queue (object s) ++ [j]) true)) as [W1 W2]. split; auto.
  - destruct (nth_error (loops s) i) as [[j p|]|];
      try solve [ exists []; rewrite app_nil_r; repeat split ].
    pose proof (settle_posted p r) as SP. pose proof (settle_quiet p r) as SQ.
    destruct (processMetaMessage_settle p r) as [effs [res|err]]; cbn [fst] in *;
      unfold commit; cbn [trace].
    + eexists. split; [ reflexivity | ]. cbn [after_process seen].
      rewrite posted_app, invoked_app, SP, (quiet_invoked _ SQ). split; reflexivity.
    + eexists. split; [ reflexivity | ]. cbn [after_process seen].
      rewrite posted_app, invoked_app, SP, (quiet_invoked _ SQ). cbn [app posted invoked].
      apply W.
  - destruct (nth_error (loops s) i) as [[j p|]|];
      try solve [ exists []; rewrite app_nil_r; repeat split ].
    eexists. split; [ reflexivity | ]. cbn [after_timer seen app posted invoked]. apply W.
Qed.

(** The requests posted are those of the jobs invoked: kept by every
    step, by every run and by letting the event loop run. *)
Lemma exec_keeps_requests tok a s :
  tok <> "" ->
  posted (trace s) =
    map (fun j => sendMessage_request (params_of tok j)) (invoked (trace s)) ->
  posted (trace (exec (Some tok) a s)) =
    map (fun j => sendMessage_request (params_of tok j))
        (invoked (trace (exec (Some tok) a s))).
Proof.
  intros N H. destruct (exec_extends (Some tok) a s) as (chunk & -> & C & _).
  now rewrite posted_app, invoked_app, map_app, H, (C tok eq_refl N).
Qed.

Lemma execs_keep_requests tok acts s :
  tok <> "" ->
  posted (trace s) =
    map (fun j => sendMessage_request (params_of tok j)) (invoked (trace s)) ->
  posted (trace (execs (Some tok) acts s)) =
    map (fun j => sendMessage_request (params_of tok j))
        (invoked (trace (execs (Some tok) acts s))).
Proof.
  intros N. revert s. induction acts as [|a acts IH]; intros s H; [ exact H | ].
  apply IH. now apply exec_keeps_requests.
Qed.

Lemma drain_keeps_requests tok fuel results s :
  tok <> "" ->
  posted (trace s) =
    map (fun j => sendMessage_request (params_of tok j)) (invoked (trace s)) ->
  posted (trace (drain (Some tok) fuel results s)) =
    map (fun j => sendMessage_request (params_of tok j))
        (invoked (trace (drain (Some tok) fuel results s))).
Proof.
  intros N. revert results s. induction fuel as [|fuel IH]; intros results s H; [ exact H | ].
  cbn [drain]. destruct (loops s) as [|[j p|] ls]; [ exact H | | ];
    apply IH; now apply exec_keeps_requests.
Qed.

(** ** The queue as a whole *)

(** Claim C1.  Whatever is enqueued, in whatever interleaving with the
    endings of requests and timers, at most one activation of the loop
    is suspended at any time and no invocation starts before the
    previous one has settled; the invocations made so far are a prefix
    of what was enqueued; enqueuing while the loop runs starts no second
    loop and invokes nothing, while enqueuing on the idle queue starts
    the loop with that job.  Once the event loop has run long enough the
    queue is idle and the jobs invoked are exactly the jobs enqueued, in
    the order they were enqueued, however the requests ended; with an
    access token configured, the requests posted are those of the jobs
    enqueued, one each, in that order. *)
Theorem C1_fifo_one_at_a_time token acts results fuel :
  let s := execs token acts initial in
  let s' := drain token fuel results s in
  2 * List.length acts + 2 <= fuel ->
  (List.length (loops s) <= 1 /\
   serial (trace s) = true /\
   added acts = invoked (trace s) ++ queue (object s)) /\
  (forall j,
     (processing (object s) = true ->
      loops (exec token (Add j) s) = loops s /\
      invoked (trace (exec token (Add j) s)) = invoked (trace s)) /\
     (processing (object s) = false ->
      loops (exec token (Add j) s) =
        [AwaitingProcess j (snd (processMetaMessage_begin token j))])) /\
  (loops s' = [] /\
   invoked (trace s') = added acts /\
   serial (trace s') = true /\
   forall tok, token = Some tok -> tok <> "" ->
     posted (trace s') =
       map (fun j => sendMessage_request (params_of tok j)) (added acts)).
Proof.
  cbv zeta. intros F.
  set (s := execs token acts initial).
  assert (I : Inv s) by (apply (reachable_Inv token); now exists acts).
  assert (E : enqueued (trace s) = added acts) by apply (execs_enqueued token acts initial).
  split; [ | split ].
  - split; [ now apply Inv_one_loop | ]. split; [ apply I | ].
    rewrite <- E. apply I.
  - intros j. split; intros P.
    + rewrite add_while_processing by assumption. cbn [loops trace].
      rewrite invoked_app. cbn. now rewrite app_nil_r.
    + now rewrite add_while_idle.
  - pose proof (drain_preserves_Inv token fuel results s I) as I'.
    assert (L : loops (drain token fuel results s) = []).
    { apply drain_reaches_idle; [ exact I | ].
      pose proof (Inv_queue_bound s I) as B. rewrite E in B.
      pose proof (added_length acts). lia. }
    assert (V : invoked (trace (drain token fuel results s)) = added acts).
    { destruct (Inv_idle _ I' L) as [_ ->]. now rewrite drain_enqueued. }
    split; [ exact L | ]. split; [ exact V | ]. split; [ apply I' | ].
    intros tok -> N. rewrite <- V.
    apply drain_keeps_requests; [ exact N | ].
    now apply execs_keep_requests.
Qed.

Lemma C1_fifo_one_at_a_time_witness :
  invoked (trace (drain (Some "tok") 6 (fun _ => Failed None "timeout")
                    (execs (Some "tok")
                       [Add (mkJob None "u1" "hi" None None);
                        Add (mkJob None "u2" "yo" None (Some "ig9"))] initial))) =
  [mkJob None "u1" "hi" None None; mkJob None "u2" "yo" None (Some "ig9")].
Proof.
  assert (F : 2 * List.length
                    [Add (mkJob None "u1" "hi" None None);
                     Add (mkJob None "u2" "yo" None (Some "ig9"))] + 2 <= 6)
    by (simpl; lia).
  exact (proj1 (proj2 (proj2 (proj2
    (C1_fifo_one_at_a_time (Some "tok")
       [Add (mkJob None "u1" "hi" None None);
        Add (mkJob None "u2" "yo" None (Some "ig9"))]
       (fun _ => Failed None "timeout") 6 F))))).
Defined.

(** ** Pacing *)

(** Claim C2 fails on the code: when the first of two queued sends
    fails, the second is invoked with no timer set in between, so the
    trace breaks the pacing rule.  The wait of line 98 sits inside the
    [try] block after the awaited send and is skipped by the throw. *)
Theorem C2_failed_attempt_is_not_paced token j1 j2 pm msg :
  let s := execs token [Add j1; Add j2; Settle 0 (Failed pm msg)] initial in
  invoked (trace s) = [j1; j2] /\
  paced 1000 (trace s) = false /\
  loops s = [AwaitingProcess j2 (snd (processMetaMessage_begin token j2))].
Proof.
  cbv zeta. unfold execs. cbn [fold_left].
  rewrite (add_while_idle token j1 initial Inv_initial eq_refl).
  rewrite add_while_processing by reflexivity.
  cbn [object loops rejected trace queue app].
  rewrite (failed_settle_step token _ j1 (snd (processMetaMessage_begin token j1)) pm msg) by reflexivity. cbv zeta.
  cbn [object loops rejected trace queue app]. rewrite while_loop_cons.
  cbn [fields seen suspended opt_list trace loops].
  pose proof (settle_quiet (snd (processMetaMessage_begin token j1)) (Failed pm msg)) as Q1.
  generalize dependent (fst (processMetaMessage_settle (snd (processMetaMessage_begin token j1))
                               (Failed pm msg))).
  intros effs1 Q1.
  name_begin token j2 Q2. intros p2 effs2 Q2.
  name_begin token j1 Q0. intros p1 effs0 Q0.
  change (trace initial) with (@nil obs). cbn [app].
  split; [ | split; [ | reflexivity ] ].
  - trace_facts. reflexivity.
  - unfold paced. cbn [app paced_from Nat.eqb andb].
    rewrite <- !app_assoc. cbn [app].
    rewrite paced_from_app, (quiet_paced _ _ _ Q0), (quiet_pace _ _ _ Q0).
    cbn [paced_from andb]. rewrite paced_from_app, (quiet_paced _ _ _ Q1), (quiet_pace _ _ _ Q1).
    reflexivity.
Qed.

(** ** Requests, pacing and the entry point *)

(** X13.  With an access token configured, the requests posted are, in
    order, the requests [sendMessage] builds for the jobs invoked: one
    request per invocation, carrying that job's recipient, text and
    account. *)
Theorem requests_follow_invocations tok acts :
  tok <> "" ->
  posted (trace (execs (Some tok) acts initial)) =
  map (fun j => sendMessage_request (params_of tok j))
      (invoked (trace (execs (Some tok) acts initial))).
Proof.
  intros N. now apply execs_keep_requests.
Qed.

(** X14.  Without an access token nothing is ever posted. *)
Theorem no_token_no_request token acts :
  present token = false ->
  posted (trace (execs token acts initial)) = [].
Proof.
  intros P.
  assert (G : forall s, posted (trace s) = [] -> posted (trace (execs token acts s)) = []).
  { induction acts as [|a acts IH]; intros s H; [ exact H | ].
    apply IH. destruct (exec_extends token a s) as (chunk & -> & _ & C).
    now rewrite posted_app, H, (C P). }
  now apply G.
Qed.

Ltac pace_facts :=
  unfold paced;
  repeat first
    [ progress cbn [paced_from pace_after app Nat.eqb andb Z.leb Z.compare Pos.compare
                    Pos.compare_cont fst snd]
    | rewrite paced_from_app
    | rewrite pace_after_app
    | rewrite app_nil_r ].

Lemma delivered_only_cons a acts :
  delivered_only (a :: acts) = true ->
  delivered_only [a] = true /\ delivered_only acts = true.
Proof. destruct a as [j|i [d|pm m]|i]; cbn; auto; discriminate. Qed.

Lemma exec_keeps_pace tok a s :
  tok <> "" -> Inv s -> Pace s -> delivered_only [a] = true ->
  Pace (exec (Some tok) a s).
Proof.
  intros N I P D.
  destruct s as [[q pr] ls rj tr]. unfold Inv, Pace, paced in *.
  cbn [rejected trace object loops queue processing] in *.
  destruct I as (_ & _ & _ & Il). destruct P as [Pp Pl].
  destruct ls as [|c [|c' ls]]; [ | | destruct c; contradiction ].
  - destruct Il as [Hq _]. injection Hq as -> ->.
    destruct a as [j|i r|i]; [ | destruct i; simpl; auto .. ].
    unfold exec, add, processQueue.
    cbn [object loops queue processing app negb orb List.length Nat.eqb].
    rewrite while_loop_cons, begin_with_token by assumption. unfold commit.
    cbn [trace loops fields seen suspended opt_list app].
    pace_facts. rewrite ?Pp, ?Pl. pace_facts. repeat split; eauto.
  - destruct a as [j|i r|i].
    + assert (Hp : pr = true) by (destruct c; tauto). subst pr.
      unfold exec, add. cbn [object loops queue processing negb]. unfold commit.
      cbn [trace loops fields seen suspended opt_list app].
      pace_facts. rewrite Pp.
      destruct c as [j0 p0|]; [ destruct Pl as [Pa Pr] | ]; rewrite ?Pa, ?Pl; pace_facts; auto.
    + destruct i as [|i]; [ | destruct i, c; simpl; auto ].
      destruct c as [j0 p0|]; [ | simpl; auto ].
      destruct Pl as [Pa [r0 ->]]. destruct r as [d|pm m]; [ | discriminate D ].
      unfold exec. cbn [nth_error loops object firstn skipn processMetaMessage_settle
                        sendMessage_settle logged map fst snd app].
      unfold after_process, commit.
      cbn [trace loops fields seen suspended opt_list app].
      pace_facts. rewrite ?Pp, ?Pa. pace_facts. auto.
    + destruct i as [|i]; [ | destruct i, c; simpl; auto ].
      destruct c as [j0 p0|]; [ simpl; auto | ].
      destruct Il as [Hp _]. subst pr.
      unfold exec, after_timer. cbn [nth_error loops object firstn skipn].
      destruct q as [|j' rest].
      * rewrite while_loop_nil. unfold commit.
        cbn [trace loops fields seen suspended opt_list app].
        pace_facts. rewrite ?Pp, ?Pl. pace_facts. auto.
      * rewrite while_loop_cons, begin_with_token by assumption. unfold commit.
        cbn [trace loops fields seen suspended opt_list app].
        pace_facts. rewrite ?Pp, ?Pl. pace_facts. repeat split; eauto.
Qed.

(** X15.  While every request is delivered, the pacing rule holds: after
    an invocation settles, the next one starts only after the timer of
    1000 ms was set and has fired. *)
Theorem delivered_runs_are_paced tok acts :
  tok <> "" ->
  delivered_only acts = true ->
  paced 1000 (trace (execs (Some tok) acts initial)) = true.
Proof.
  intros N D.
  assert (G : forall s, Inv s -> Pace s -> Pace (execs (Some tok) acts s)).
  { induction acts as [|a acts IH]; intros s I P; [ exact P | ].
    destruct (delivered_only_cons a acts D) as [D1 D2].
    apply IH; [ exact D2 | now apply exec_preserves_Inv | now apply exec_keeps_pace ]. }
  apply (G initial Inv_initial). split; reflexivity.
Qed.

(** X16.  [queueMessage] never rejects.  On the idle queue it posts the
    request at once, to the endpoint its account id selects, with the
    recipient and text it was given and the token as bearer; on a queue
    that is processing it posts nothing and puts the job last. *)
Theorem queueMessage_posts_at_once_or_waits tok psid text ig dm q :
  tok <> "" ->
  let job := mkJob None psid text dm ig in
  let req := mkRequest (endpoint ig)
               (VObj [("recipient", VObj [("id", VStr psid)]);
                      ("message", VObj [("text", VStr text)])])
               [("Authorization", ("Bearer " ++ tok)%string);
                ("Content-Type", "application/json")]
               15000 in
  let r := queueMessage (Some tok) psid text ig dm q in
  rejection r = None /\
  (q = mkQueue [] false ->
   posted (seen r) = [req] /\
   fields r = mkQueue [] true /\
   suspended r = Some (AwaitingProcess job (AwaitingPost req))) /\
  (processing q = true ->
   posted (seen r) = [] /\
   fields r = mkQueue (queue q ++ [job]) true /\
   suspended r = None).
Proof.
  intros N. cbv zeta. unfold queueMessage, add. cbn [queue processing].
  split; [ now destruct (negb _) | split ].
  - intros ->. cbn [processing queue negb app]. unfold processQueue.
    cbn [processing queue orb List.length Nat.eqb].
    rewrite while_loop_cons, begin_with_token by assumption.
    cbn [seen fields suspended posted fst snd]. repeat split.
  - intros ->. cbn [negb seen fields suspended posted]. repeat split.
Qed.

Lemma queueMessage_posts_at_once_or_waits_witness :
  posted (seen (queueMessage (Some "tok") "u1" "hi" (Some "ig9") None (mkQueue [] false))) =
  [mkRequest "https://graph.instagram.com/v22.0/ig9/messages"
     (VObj [("recipient", VObj [("id", VStr "u1")]); ("message", VObj [("text", VStr "hi")])])
     [("Authorization", "Bearer tok"); ("Content-Type", "application/json")]
     15000].
Proof.
  assert (N : "tok" <> "") by discriminate.
  exact (proj1 (proj1 (proj2
    (queueMessage_posts_at_once_or_waits "tok" "u1" "hi" (Some "ig9") None
       (mkQueue [] false) N)) eq_refl)).
Defined.

(** X17.  In every reachable state [processing] is set exactly while an
    activation of the loop is suspended, and a queue that is not
    processing is empty: no job is left waiting with no loop to take it. *)
Theorem processing_flag_tracks_the_loop token acts :
  let s := execs token acts initial in
  (processing (object s) = true <-> loops s <> []) /\
  (processing (object s) = false -> queue (object s) = []).
Proof.
  cbv zeta. set (s := execs token acts initial).
  assert (I : Inv s) by (apply (reachable_Inv token); now exists acts).
  destruct I as (_ & _ & _ & Il).
  destruct (loops s) as [|c [|c' ls]]; [ | | destruct c; contradiction ].
  - destruct Il as [-> _]. cbn. repeat split; congruence.
  - assert (P : processing (object s) = true) by (destruct c; tauto).
    rewrite P. repeat split; congruence.
Qed.

(** X18.  [processMetaMessage] resolves with the provider's message id
    when the request is delivered, rejects with the error of
    [sendMessage] unchanged when it fails, and without an access token
    posts nothing and rejects with a fixed error. *)
Theorem processMetaMessage_outcomes token j :
  (forall tok d,
     token = Some tok -> tok <> "" ->
     snd (processMetaMessage_settle (snd (processMetaMessage_begin token j)) (Delivered d)) =
       Normal (mkResult true (message_id d))) /\
  (forall tok pm m,
     token = Some tok -> tok <> "" ->
     snd (processMetaMessage_settle (snd (processMetaMessage_begin token j)) (Failed pm m)) =
       Throw (Error ("Failed to send Meta message: " ++ failure_text pm m)%string)) /\
  (present token = false ->
   posted (fst (processMetaMessage_begin token j)) = [] /\
   forall r,
     snd (processMetaMessage_settle (snd (processMetaMessage_begin token j)) r) =
       Throw (Error "Meta access token not configured")).
Proof.
  repeat split.
  - intros tok d -> N. now rewrite begin_with_token.
  - intros tok pm m -> N. now rewrite begin_with_token.
  - now rewrite begin_without_token.
  - intros r. now rewrite begin_without_token.
Qed.

Lemma processMetaMessage_outcomes_witness :
  snd (processMetaMessage_settle
         (snd (processMetaMessage_begin (Some "tok") (mkJob None "u1" "hi" None None)))
         (Failed (Some "(#10) outside the allowed window") "Request failed with status code 400")) =
  Throw (Error "Failed to send Meta message: (#10) outside the allowed window").
Proof.
  assert (N : "tok" <> "") by discriminate.
  exact (proj1 (proj2 (processMetaMessage_outcomes (Some "tok") (mkJob None "u1" "hi" None None)))
           "tok" (Some "(#10) outside the allowed window")
           "Request failed with status code 400" eq_refl N).
Defined.

Lemma requests_follow_invocations_witness :
  posted (trace (execs (Some "tok")
                   [Add (mkJob None "u1" "hi" None None);
                    Add (mkJob None "u2" "yo" None (Some "ig9"));
                    Settle 0 (Failed None "timeout")] initial)) =
  map (fun j => sendMessage_request (params_of "tok" j))
      (invoked (trace (execs (Some "tok")
                   [Add (mkJob None "u1" "hi" None None);
                    Add (mkJob None "u2" "yo" None (Some "ig9"));
                    Settle 0 (Failed None "timeout")] initial))).
Proof.
  apply (requests_follow_invocations "tok"). discriminate.
Defined.

Lemma no_token_no_request_witness :
  posted (trace (execs None
                   [Add (mkJob None "u1" "hi" None None); Settle 0 (Failed None "unused")]
                   initial)) = [].
Proof. apply (no_token_no_request None). reflexivity. Defined.

Lemma delivered_runs_are_paced_witness :
  paced 1000
    (trace (execs (Some "tok")
              [Add (mkJob None "u1" "hi" None None);
               Add (mkJob None "u2" "yo" None None);
               Settle 0 (Delivered (mkResponseData "u1" "m-1"));
               Fire 0] initial)) = true.
Proof. apply (delivered_runs_are_paced "tok"); [ discriminate | reflexivity ]. Defined.

End ProcessorProofs.
